(** * Encoder localization node: wheel-encoder odometry

    A shallow embedding of
    [packages/encoder_localization/src/encoder_localization.py]:
    the [EncoderLocalization] node, its tick callback
    [cb_encoder_to_transform] and its publish loop [run].

    - The node's attributes are the fields of the record [Node].  The
      callback is written in a state-and-exception monad in which the
      attributes assigned before a [raise] stay assigned, as they do on the
      Python object.
    - The arithmetic on Python floats sits behind the interface [Arith], with
      two instances: [binary64], IEEE 754 double precision as Python and
      numpy compute it (on [spec_float], so that it runs inside Rocq), and
      [exact], the same formulas over the real numbers.  What is proved for
      every [Arith] does not depend on rounding.
    - The subscriber callbacks and the iterations of the publish loop are
      taken one at a time, as the events of a trace.  An exception raised by
      a callback is logged by the subscriber and goes no further; the node
      stays as the callback left it.
    - The loop runs in another thread than the callbacks and may look at
      the node between two statements of a callback: [cb_stages] and
      [history] list the states a callback passes through, one per
      attribute assignment.
    - [get_calib_params] is a function of the calibration folder, given as
      what [yaml.load] makes of each file.

    The first part holds the definitions, the second part the lemmas and the
    theorems. *)

From Stdlib Require Import ZArith List String Bool Lia Zpower Sorted.
From Stdlib Require Import SpecFloat.
From Stdlib Require Import Reals Zfloor Lra.
Import ListNotations.

Local Open Scope Z_scope.
Local Open Scope string_scope.
Local Open Scope list_scope.

(** ** Arithmetic on Python floats *)

(** The operations the node applies to floats: conversion of a Python [int],
    [+], [-], [*], [/] (for a non-zero divisor), the constant [np.pi], the
    function [np.mod], and the test [y == 0] that decides whether [x / y]
    raises [ZeroDivisionError]. *)
Class Arith : Type := {
  num : Type;
  of_int : Z -> num;
  add : num -> num -> num;
  sub : num -> num -> num;
  mul : num -> num -> num;
  div : num -> num -> num;
  np_pi : num;
  np_mod : num -> num -> num;
  eq_zero : num -> bool
}.

(** *** IEEE 754 binary64 *)

Module B64.

Definition prec : Z := 53.
Definition emax : Z := 1024.

Definition t : Type := spec_float.

Definition zero : t := S754_zero false.

(** [float(z)]: the nearest double, ties to even.  The tick values of a
    [WheelEncoderStamped] are 32-bit, far from the integers Python refuses
    to convert. *)
Definition of_int (z : Z) : t := binary_normalize prec emax z 0 false.

Definition add : t -> t -> t := SFadd prec emax.
Definition sub : t -> t -> t := SFsub prec emax.
Definition mul : t -> t -> t := SFmul prec emax.
Definition div : t -> t -> t := SFdiv prec emax.
Definition eqb : t -> t -> bool := SFeqb.
Definition ltb : t -> t -> bool := SFltb.
Definition leb : t -> t -> bool := SFleb.

(** [np.pi = 3.141592653589793 = 0x1.921fb54442d18p+1]. *)
Definition pi : t := S754_finite false 7074237752028440 (-51).

(** Neither an infinity nor a NaN. *)
Definition is_finite (x : t) : bool :=
  match x with
  | S754_zero _ | S754_finite _ _ _ => true
  | S754_infinity _ | S754_nan => false
  end.

(** [np.isnan], and [np.signbit] on what is not a NaN (the NaN of
    [spec_float] carries no sign). *)
Definition is_nan (x : t) : bool :=
  match x with
  | S754_nan => true
  | _ => false
  end.

Definition signbit (x : t) : bool :=
  match x with
  | S754_zero s | S754_infinity s | S754_finite s _ _ => s
  | S754_nan => false
  end.

(** C's [fmod]: the exact remainder of the truncated division, with the
    sign of [x].  Both operands are brought to the smaller exponent, where
    the remainder is a remainder of integers; it always fits the format. *)
Definition fmod (x y : t) : t :=
  match x, y with
  | S754_nan, _ | _, S754_nan => S754_nan
  | S754_infinity _, _ => S754_nan
  | _, S754_zero _ => S754_nan
  | S754_zero _, _ => x
  | S754_finite _ _ _, S754_infinity _ => x
  | S754_finite sx mx ex, S754_finite _ my ey =>
      let ez := Z.min ex ey in
      let r := Z.rem (Zpos (fst (shl_align mx ex ez)))
                     (Zpos (fst (shl_align my ey ez))) in
      binary_normalize prec emax (cond_Zopp sx r) ez sx
  end.

Definition copysign_zero (y : t) : t :=
  match y with
  | S754_zero s | S754_infinity s | S754_finite s _ _ => S754_zero s
  | S754_nan => S754_zero false
  end.

(** [np.mod] on doubles (numpy's [npy_remainder] and [npy_divmod]): the
    result of [fmod], moved by [b] when it is non-zero and its sign differs
    from the sign of [b]; a zero remainder takes the sign of [b]. *)
Definition np_mod (a b : t) : t :=
  let m := fmod a b in
  if eqb b zero then m
  else if negb (eqb m zero) then
    if negb (Bool.eqb (ltb b zero) (ltb m zero)) then add m b else m
  else copysign_zero b.

(** *** What the proofs about rounding speak of *)

(** [2.0 * np.pi = 0x1.921fb54442d18p+2]. *)
Definition two_pi : t := S754_finite false 7074237752028440 (-50).

(** The mantissa of [2.0 * np.pi] at exponent [-50], and that value scaled by
    [2 ^ 1074]. *)
Definition two_pi_m : Z := 7074237752028440.
Definition bound : Z := two_pi_m * 2 ^ 1024.

(** A zero or a finite number whose exponent is a binary64 exponent. *)
Definition in_range (x : t) : bool :=
  match x with
  | S754_zero _ => true
  | S754_finite _ _ e => Z.leb (-1074) e
  | S754_infinity _ | S754_nan => false
  end.

(** After [k] right shifts of [z]: the quotient, and no sticky or round bit
    if nothing was shifted out. *)
Definition shifted (z k : Z) (mrs : shr_record) : Prop :=
  shr_m mrs = z / 2 ^ k /\
  (z mod 2 ^ k = 0 -> shr_r mrs = false /\ shr_s mrs = false).

(** A zero, or a finite number of sign [s] in canonical form whose magnitude
    is at most [2.0 * np.pi]. *)
Definition below (s : bool) (x : t) : Prop :=
  x = S754_zero s \/
  exists m e,
    x = S754_finite s m e /\ -1074 <= e /\
    (e = -1074 \/ 2 ^ 52 <= Zpos m) /\
    Zpos m * 2 ^ (e + 1074) <= bound.

End B64.

#[export] Instance binary64 : Arith := {|
  num := B64.t;
  of_int := B64.of_int;
  add := B64.add;
  sub := B64.sub;
  mul := B64.mul;
  div := B64.div;
  np_pi := B64.pi;
  np_mod := B64.np_mod;
  eq_zero := fun y => B64.eqb y B64.zero
|}.

(** *** Exact arithmetic *)

Module Exact.

(** The modulus with the sign of the divisor: [a - floor (a / b) * b]. *)
Definition np_mod (a b : R) : R := (a - IZR (Zfloor (a / b)) * b)%R.

Definition eq_zero (y : R) : bool := if Req_dec_T y 0%R then true else false.

End Exact.

#[export] Instance exact : Arith := {|
  num := R;
  of_int := IZR;
  add := Rplus;
  sub := Rminus;
  mul := Rmult;
  div := Rdiv;
  np_pi := PI;
  np_mod := Exact.np_mod;
  eq_zero := Exact.eq_zero
|}.

(** ** Messages *)

(** [rospy.Time]. *)
Record Time : Type := { secs : Z; nsecs : Z }.

(** [std_msgs/Header]. *)
Record Header : Type := { stamp : Time; frame_id : string }.

(** [duckietown_msgs/WheelEncoderStamped], with the two fields the node
    reads. *)
Module WheelEncoderStamped.
Record t : Type := { header : Header; data : Z }.
End WheelEncoderStamped.

(** [geometry_msgs/TransformStamped]. *)
Module TransformStamped.
Record Transform {A : Arith} : Type := {
  translation : num * num * num;
  rotation : num * num * num * num
}.
Record t {A : Arith} : Type := {
  header : Header;
  child_frame_id : string;
  transform : Transform
}.

(** [TransformStamped()]: every field at its default. *)
Definition new {A : Arith} : t := {|
  header := {| stamp := {| secs := 0; nsecs := 0 |}; frame_id := "" |};
  child_frame_id := "";
  transform := {|
    translation := (of_int 0, of_int 0, of_int 0);
    rotation := (of_int 0, of_int 0, of_int 0, of_int 0) |}
|}.

Definition set_stamp {A : Arith} (v : Time) (m : t) : t :=
  {| header := {| stamp := v; frame_id := frame_id (header m) |};
     child_frame_id := child_frame_id m;
     transform := transform m |}.

Definition set_frame_id {A : Arith} (v : string) (m : t) : t :=
  {| header := {| stamp := stamp (header m); frame_id := v |};
     child_frame_id := child_frame_id m;
     transform := transform m |}.

Definition set_child_frame_id {A : Arith} (v : string) (m : t) : t :=
  {| header := header m;
     child_frame_id := v;
     transform := transform m |}.
End TransformStamped.

(** ** Exceptions and the node monad *)

Inductive exn : Type :=
| NameError (msg : string)
| ZeroDivisionError
| AttributeError (attr : string).

Inductive outcome (X : Type) : Type :=
| Return (x : X)
| Raise (e : exn).
Arguments Return {X} x.
Arguments Raise {X} e.

(** What the publish loop hands to its two collaborators. *)
Inductive output {A : Arith} : Type :=
| Publish (m : TransformStamped.t)
| SendTransform (m : TransformStamped.t).

(** ** The node *)

(** The attributes of [EncoderLocalization] that the callback and the loop
    read or write.  [transform_msg] is assigned for the first time in the
    callback: before that the attribute does not exist ([None]). *)
Record Node {A : Arith} : Type := {
  encoder_received : bool;
  initialised_ticks_left : bool;
  total_ticks_left : Z;
  initial_ticks_left : Z;
  wheel_distance_left : num;
  initialised_ticks_right : bool;
  total_ticks_right : Z;
  initial_ticks_right : Z;
  wheel_distance_right : num;
  theta : num;
  transform_msg : option TransformStamped.t
}.

(** [self.encoder_resolution = 135], assigned in [__init__] and never again. *)
Definition encoder_resolution : Z := 135.

Section Setters.
Context {A : Arith}.

Definition set_encoder_received (v : bool) (s : Node) : Node :=
  {| encoder_received := v;
     initialised_ticks_left := initialised_ticks_left s;
     total_ticks_left := total_ticks_left s;
     initial_ticks_left := initial_ticks_left s;
     wheel_distance_left := wheel_distance_left s;
     initialised_ticks_right := initialised_ticks_right s;
     total_ticks_right := total_ticks_right s;
     initial_ticks_right := initial_ticks_right s;
     wheel_distance_right := wheel_distance_right s;
     theta := theta s;
     transform_msg := transform_msg s |}.

Definition set_initialised_ticks_left (v : bool) (s : Node) : Node :=
  {| encoder_received := encoder_received s;
     initialised_ticks_left := v;
     total_ticks_left := total_ticks_left s;
     initial_ticks_left := initial_ticks_left s;
     wheel_distance_left := wheel_distance_left s;
     initialised_ticks_right := initialised_ticks_right s;
     total_ticks_right := total_ticks_right s;
     initial_ticks_right := initial_ticks_right s;
     wheel_distance_right := wheel_distance_right s;
     theta := theta s;
     transform_msg := transform_msg s |}.

Definition set_total_ticks_left (v : Z) (s : Node) : Node :=
  {| encoder_received := encoder_received s;
     initialised_ticks_left := initialised_ticks_left s;
     total_ticks_left := v;
     initial_ticks_left := initial_ticks_left s;
     wheel_distance_left := wheel_distance_left s;
     initialised_ticks_right := initialised_ticks_right s;
     total_ticks_right := total_ticks_right s;
     initial_ticks_right := initial_ticks_right s;
     wheel_distance_right := wheel_distance_right s;
     theta := theta s;
     transform_msg := transform_msg s |}.

Definition set_initial_ticks_left (v : Z) (s : Node) : Node :=
  {| encoder_received := encoder_received s;
     initialised_ticks_left := initialised_ticks_left s;
     total_ticks_left := total_ticks_left s;
     initial_ticks_left := v;
     wheel_distance_left := wheel_distance_left s;
     initialised_ticks_right := initialised_ticks_right s;
     total_ticks_right := total_ticks_right s;
     initial_ticks_right := initial_ticks_right s;
     wheel_distance_right := wheel_distance_right s;
     theta := theta s;
     transform_msg := transform_msg s |}.

Definition set_wheel_distance_left (v : num) (s : Node) : Node :=
  {| encoder_received := encoder_received s;
     initialised_ticks_left := initialised_ticks_left s;
     total_ticks_left := total_ticks_left s;
     initial_ticks_left := initial_ticks_left s;
     wheel_distance_left := v;
     initialised_ticks_right := initialised_ticks_right s;
     total_ticks_right := total_ticks_right s;
     initial_ticks_right := initial_ticks_right s;
     wheel_distance_right := wheel_distance_right s;
     theta := theta s;
     transform_msg := transform_msg s |}.

Definition set_initialised_ticks_right (v : bool) (s : Node) : Node :=
  {| encoder_received := encoder_received s;
     initialised_ticks_left := initialised_ticks_left s;
     total_ticks_left := total_ticks_left s;
     initial_ticks_left := initial_ticks_left s;
     wheel_distance_left := wheel_distance_left s;
     initialised_ticks_right := v;
     total_ticks_right := total_ticks_right s;
     initial_ticks_right := initial_ticks_right s;
     wheel_distance_right := wheel_distance_right s;
     theta := theta s;
     transform_msg := transform_msg s |}.

Definition set_total_ticks_right (v : Z) (s : Node) : Node :=
  {| encoder_received := encoder_received s;
     initialised_ticks_left := initialised_ticks_left s;
     total_ticks_left := total_ticks_left s;
     initial_ticks_left := initial_ticks_left s;
     wheel_distance_left := wheel_distance_left s;
     initialised_ticks_right := initialised_ticks_right s;
     total_ticks_right := v;
     initial_ticks_right := initial_ticks_right s;
     wheel_distance_right := wheel_distance_right s;
     theta := theta s;
     transform_msg := transform_msg s |}.

Definition set_initial_ticks_right (v : Z) (s : Node) : Node :=
  {| encoder_received := encoder_received s;
     initialised_ticks_left := initialised_ticks_left s;
     total_ticks_left := total_ticks_left s;
     initial_ticks_left := initial_ticks_left s;
     wheel_distance_left := wheel_distance_left s;
     initialised_ticks_right := initialised_ticks_right s;
     total_ticks_right := total_ticks_right s;
     initial_ticks_right := v;
     wheel_distance_right := wheel_distance_right s;
     theta := theta s;
     transform_msg := transform_msg s |}.

Definition set_wheel_distance_right (v : num) (s : Node) : Node :=
  {| encoder_received := encoder_received s;
     initialised_ticks_left := initialised_ticks_left s;
     total_ticks_left := total_ticks_left s;
     initial_ticks_left := initial_ticks_left s;
     wheel_distance_left := wheel_distance_left s;
     initialised_ticks_right := initialised_ticks_right s;
     total_ticks_right := total_ticks_right s;
     initial_ticks_right := initial_ticks_right s;
     wheel_distance_right := v;
     theta := theta s;
     transform_msg := transform_msg s |}.

Definition set_theta (v : num) (s : Node) : Node :=
  {| encoder_received := encoder_received s;
     initialised_ticks_left := initialised_ticks_left s;
     total_ticks_left := total_ticks_left s;
     initial_ticks_left := initial_ticks_left s;
     wheel_distance_left := wheel_distance_left s;
     initialised_ticks_right := initialised_ticks_right s;
     total_ticks_right := total_ticks_right s;
     initial_ticks_right := initial_ticks_right s;
     wheel_distance_right := wheel_distance_right s;
     theta := v;
     transform_msg := transform_msg s |}.

Definition set_transform_msg (v : option TransformStamped.t) (s : Node)
    : Node :=
  {| encoder_received := encoder_received s;
     initialised_ticks_left := initialised_ticks_left s;
     total_ticks_left := total_ticks_left s;
     initial_ticks_left := initial_ticks_left s;
     wheel_distance_left := wheel_distance_left s;
     initialised_ticks_right := initialised_ticks_right s;
     total_ticks_right := total_ticks_right s;
     initial_ticks_right := initial_ticks_right s;
     wheel_distance_right := wheel_distance_right s;
     theta := theta s;
     transform_msg := v |}.

(** *** State and exceptions *)

(** A computation on the node: an outcome and the node as it is left. *)
Definition M (X : Type) : Type := Node -> outcome X * Node.

Definition ret {X} (x : X) : M X := fun s => (Return x, s).

Definition bind {X Y} (c : M X) (k : X -> M Y) : M Y :=
  fun s =>
    match c s with
    | (Return x, s') => k x s'
    | (Raise e, s') => (Raise e, s')
    end.

Definition raise {X} (e : exn) : M X := fun s => (Raise e, s).

(** Read an attribute. *)
Definition gets {X} (f : Node -> X) : M X := fun s => (Return (f s), s).

(** Assign an attribute. *)
Definition modify (f : Node -> Node) : M unit := fun s => (Return tt, f s).

(** A callback invoked by the subscriber: an exception it raises is logged
    by the transport and goes no further; the node is left as the callback
    left it. *)
Definition dispatch (c : M unit) : M unit := fun s => (Return tt, snd (c s)).

End Setters.

Declare Scope node_scope.
Delimit Scope node_scope with node.
Notation "x <- c ;; k" := (bind c (fun x => k))
  (at level 61, c at next level, right associativity) : node_scope.
Notation "c ;; k" := (bind c (fun _ => k))
  (at level 61, right associativity) : node_scope.

Section EncoderLocalization.
Context {A : Arith}.

(** The calibration returned by [get_calib_params]. *)
Variables (baseline radius : num).

Local Open Scope node_scope.

(** [__init__]: the attributes the callback and the loop use. *)
Definition init : Node := {|
  encoder_received := false;
  initialised_ticks_left := false;
  total_ticks_left := 0;
  initial_ticks_left := 0;
  wheel_distance_left := of_int 0;
  initialised_ticks_right := false;
  total_ticks_right := 0;
  initial_ticks_right := 0;
  wheel_distance_right := of_int 0;
  theta := of_int 0;
  transform_msg := None
|}.

(** [x / y] on Python floats. *)
Definition truediv (x y : num) : M num :=
  if eq_zero y then raise ZeroDivisionError else ret (div x y).

(** [2 * np.pi * self.radius * dN / self.encoder_resolution]; the divisor
    is the integer 135. *)
Definition distance (dN : Z) : num :=
  div (mul (mul (mul (of_int 2) np_pi) radius) (of_int dN))
      (of_int encoder_resolution).

Definition cb_encoder_to_transform
    (msg : WheelEncoderStamped.t) (wheel : string) : M unit :=
  (if wheel =? "left" then
     initialised <- gets initialised_ticks_left ;;
     (if negb initialised then
        modify (set_total_ticks_left (WheelEncoderStamped.data msg)) ;;
        modify (set_initial_ticks_left (WheelEncoderStamped.data msg)) ;;
        modify (set_initialised_ticks_left true)
      else ret tt) ;;
     total <- gets total_ticks_left ;;
     let dN_ticks_left := WheelEncoderStamped.data msg - total in
     d <- gets wheel_distance_left ;;
     modify (set_wheel_distance_left (add d (distance dN_ticks_left))) ;;
     modify (set_total_ticks_left (WheelEncoderStamped.data msg))
   else if wheel =? "right" then
     initialised <- gets initialised_ticks_right ;;
     (if negb initialised then
        modify (set_total_ticks_right (WheelEncoderStamped.data msg)) ;;
        modify (set_initial_ticks_right (WheelEncoderStamped.data msg)) ;;
        modify (set_initialised_ticks_right true)
      else ret tt) ;;
     total <- gets total_ticks_right ;;
     let dN_ticks_right := WheelEncoderStamped.data msg - total in
     d <- gets wheel_distance_right ;;
     modify (set_wheel_distance_right (add d (distance dN_ticks_right))) ;;
     modify (set_total_ticks_right (WheelEncoderStamped.data msg))
   else raise (NameError "wheel name not found")) ;;
  (* Estimation *)
  dl <- gets wheel_distance_left ;;
  dr <- gets wheel_distance_right ;;
  q <- truediv (sub dl dr) baseline ;;
  modify (set_theta (np_mod q (mul (of_int 2) np_pi))) ;;
  (* rospy.loginfo: writes the heading in degrees to the log, nothing else *)
  (* make transform message (published in run) *)
  modify (set_transform_msg (Some TransformStamped.new)) ;;
  modify (fun s => set_transform_msg
    (option_map (TransformStamped.set_stamp
                   (stamp (WheelEncoderStamped.header msg)))
                (transform_msg s)) s) ;;
  modify (fun s => set_transform_msg
    (option_map (TransformStamped.set_frame_id "map") (transform_msg s)) s) ;;
  modify (fun s => set_transform_msg
    (option_map (TransformStamped.set_child_frame_id "encoder_baselink")
                (transform_msg s)) s) ;;
  modify (set_encoder_received true).

(** One iteration of the [while] loop of [run], without the sleep. *)
Definition run_cycle : M (list output) :=
  received <- gets encoder_received ;;
  if received then
    m <- gets transform_msg ;;
    match m with
    | Some m => ret [Publish m; SendTransform m]
    | None => raise (AttributeError "transform_msg")
    end
  else ret [].

(** [run], shut down after [n] iterations: what it has emitted, in order. *)
Fixpoint run (n : nat) : M (list output) :=
  match n with
  | O => ret []
  | S n' => out <- run_cycle ;; rest <- run n' ;; ret (out ++ rest)
  end.

(** *** Event traces *)

(** What happens to the node: a tick message arrives on a subscription
    registered with the tag [wheel], or the publish loop runs one
    iteration. *)
Inductive event : Type :=
| Tick (wheel : string) (msg : WheelEncoderStamped.t)
| Cycle.

(** The node driven by a trace; the result collects what the loop emits. *)
Fixpoint exec (evs : list event) : M (list output) :=
  match evs with
  | [] => ret []
  | Tick wheel msg :: evs' =>
      dispatch (cb_encoder_to_transform msg wheel) ;; exec evs'
  | Cycle :: evs' =>
      out <- run_cycle ;; rest <- exec evs' ;; ret (out ++ rest)
  end.

(** The node after a trace, started from [__init__]. *)
Definition after (evs : list event) : Node := snd (exec evs init).

(** *** The callback and the trackers as functions *)

(** The left tracker after a tick of the left wheel (lines 110 to 118). *)
Definition update_left (msg : WheelEncoderStamped.t) (s : Node) : Node :=
  let s1 :=
    if initialised_ticks_left s then s
    else set_initialised_ticks_left true
           (set_initial_ticks_left (WheelEncoderStamped.data msg)
              (set_total_ticks_left (WheelEncoderStamped.data msg) s)) in
  set_total_ticks_left (WheelEncoderStamped.data msg)
    (set_wheel_distance_left
       (add (wheel_distance_left s1)
            (distance (WheelEncoderStamped.data msg - total_ticks_left s1)))
       s1).

(** The right tracker after a tick of the right wheel (lines 122 to 130). *)
Definition update_right (msg : WheelEncoderStamped.t) (s : Node) : Node :=
  let s1 :=
    if initialised_ticks_right s then s
    else set_initialised_ticks_right true
           (set_initial_ticks_right (WheelEncoderStamped.data msg)
              (set_total_ticks_right (WheelEncoderStamped.data msg) s)) in
  set_total_ticks_right (WheelEncoderStamped.data msg)
    (set_wheel_distance_right
       (add (wheel_distance_right s1)
            (distance (WheelEncoderStamped.data msg - total_ticks_right s1)))
       s1).

(** The heading recomputed from the two distances (line 138). *)
Definition heading (s : Node) : num :=
  np_mod (div (sub (wheel_distance_left s) (wheel_distance_right s)) baseline)
         (mul (of_int 2) np_pi).

(** The message built at lines 142 to 146. *)
Definition stamped (msg : WheelEncoderStamped.t) : TransformStamped.t :=
  TransformStamped.set_child_frame_id "encoder_baselink"
    (TransformStamped.set_frame_id "map"
       (TransformStamped.set_stamp (stamp (WheelEncoderStamped.header msg))
          TransformStamped.new)).

(** The estimation step (lines 138 to 156) when the division succeeds. *)
Definition estimate (msg : WheelEncoderStamped.t) (s : Node) : Node :=
  set_encoder_received true
    (set_transform_msg (Some (stamped msg)) (set_theta (heading s) s)).

(** What [__init__] establishes and every callback keeps: while the flag is
    down the heading is still the initial one and no message is stored; once
    it is up the baseline is non-zero, the heading is the one derived from
    the two distances and a message is stored; a tracker that has seen no
    tick has accumulated nothing. *)
Definition consistent (s : Node) : Prop :=
  (encoder_received s = true ->
     eq_zero baseline = false /\ theta s = heading s /\
     exists m, transform_msg s = Some m) /\
  (encoder_received s = false ->
     theta s = of_int 0 /\ transform_msg s = None) /\
  (initialised_ticks_left s = false -> wheel_distance_left s = of_int 0) /\
  (initialised_ticks_right s = false -> wheel_distance_right s = of_int 0).

(** The tick values a trace delivers with the tag [wheel], in order. *)
Fixpoint readings (wheel : string) (evs : list event) : list Z :=
  match evs with
  | [] => []
  | Tick w msg :: evs' =>
      if w =? wheel then WheelEncoderStamped.data msg :: readings wheel evs'
      else readings wheel evs'
  | Cycle :: evs' => readings wheel evs'
  end.

(** The three attributes of one wheel that its branch of the callback reads:
    the flag, the last tick value and the distance. *)
Definition tracker : Type := bool * Z * num.

Definition left_tracker (s : Node) : tracker :=
  (initialised_ticks_left s, total_ticks_left s, wheel_distance_left s).

Definition right_tracker (s : Node) : tracker :=
  (initialised_ticks_right s, total_ticks_right s, wheel_distance_right s).

(** One branch of the callback as a function of these attributes (lines 110
    to 118 for the left wheel, 122 to 130 for the right one). *)
Definition tracker_update (tr : tracker) (t : Z) : tracker :=
  let '(initialised, total, d) := tr in
  let total := if initialised then total else t in
  (true, t, add d (distance (t - total))).

(** The distance after the readings [ts], from distance [d] and last
    reading [total]: the deltas added one after the other. *)
Fixpoint accumulate (d : num) (total : Z) (ts : list Z) : num :=
  match ts with
  | [] => d
  | t :: ts' => accumulate (add d (distance (t - total))) t ts'
  end.

(** The distance of a wheel whose tracker started in [__init__]'s state and
    was given the readings [ts]; the first reading is compared with itself. *)
Definition accumulated (ts : list Z) : num :=
  match ts with
  | [] => of_int 0
  | t0 :: _ => accumulate (of_int 0) t0 ts
  end.

(** What the callback does to a tracker that has seen no tick: the reading
    seeds both tick attributes, the flag goes up, and the delta added to the
    distance is the one of zero ticks. *)
Definition seeded (msg : WheelEncoderStamped.t) (before : num)
    (tr : bool * Z * Z * num) : Prop :=
  tr = (true, WheelEncoderStamped.data msg, WheelEncoderStamped.data msg,
        add before (distance 0)).

End EncoderLocalization.

(** ** A concrete vehicle in binary64 *)

(** The geometry of the specification's end-to-end scenario:
    [baseline = 0.1], [radius = 0.02], as the doubles Python reads. *)
Module Scenario.

(** [0.1 = 0x1.999999999999ap-4]. *)
Definition baseline : @num binary64 := S754_finite false 7205759403792794 (-56).

(** [0.02 = 0x1.47ae147ae147bp-6]. *)
Definition radius : @num binary64 := S754_finite false 5764607523034235 (-58).

(** A tick message with reading [t], stamped at second [t]. *)
Definition tick (t : Z) : WheelEncoderStamped.t :=
  {| WheelEncoderStamped.header :=
       {| stamp := {| secs := t; nsecs := 0 |}; frame_id := "" |};
     WheelEncoderStamped.data := t |}.

Definition left (t : Z) : event := Tick "left" (tick t).
Definition right (t : Z) : event := Tick "right" (tick t).

Abbreviation cb := (cb_encoder_to_transform baseline radius).
Abbreviation after := (after baseline radius).

(** [2.0 * np.pi]. *)
Definition two_pi : @num binary64 := mul (of_int 2) np_pi.

End Scenario.

(** ** Calibration, subscriptions and what a trace emits *)

(** What [get_calib_params] does besides returning: the lines it logs and the
    shutdown it requests, in order. *)
Inductive effect : Type :=
| Log (text : string)
| LogWarn (text : string)
| SignalShutdown (reason : string).

(** The exceptions of [get_calib_params]: [open] on a missing file,
    [yaml.load] on a text that is not YAML, a subscript on a loaded value
    that is not a dictionary, and a key missing from the loaded
    dictionary. *)
Inductive calib_exn : Type :=
| FileNotFoundError (path : string)
| YAMLError
| TypeError
| KeyError (key : string).

(** A subscription registered in [__init__]: the topic and the tag handed to
    the callback as [callback_args]. *)
Record Subscription : Type := { sub_topic : string; callback_args : string }.

(** The line feed of the warning's text. *)
Definition newline : string := String (Ascii.ascii_of_nat 10) "".

Definition cali_folder : string := "/data/config/calibrations/kinematics".

(** [f'/{veh_name}/left_wheel_encoder_node/tick'] and its right counterpart;
    [f'/{veh_name}/encoder_localization/transform']. *)
Definition left_encoder_topic (veh_name : string) : string :=
  String.append "/" (String.append veh_name "/left_wheel_encoder_node/tick").

Definition right_encoder_topic (veh_name : string) : string :=
  String.append "/" (String.append veh_name "/right_wheel_encoder_node/tick").

Definition pub_topic (veh_name : string) : string :=
  String.append "/" (String.append veh_name "/encoder_localization/transform").

(** The two subscribers of [__init__] (lines 65 to 72). *)
Definition subscribers (veh_name : string) : list Subscription :=
  [ {| sub_topic := left_encoder_topic veh_name; callback_args := "left" |};
    {| sub_topic := right_encoder_topic veh_name; callback_args := "right" |} ].

(** A tag that the callback knows. *)
Definition known (wheel : string) : bool :=
  (wheel =? "left") || (wheel =? "right").

(** The net count of a wheel: last reading minus first reading. *)
Definition net_ticks (ts : list Z) : Z :=
  match ts with
  | [] => 0
  | t0 :: ts' => last ts' t0 - t0
  end.

Section Calibration.
Context {A : Arith}.

(** A dictionary from keys to numbers, and what [yaml.load] makes of a
    file: it raises on a text that is not YAML, it returns [None] for an
    empty file, a list or a scalar for others, none of which can be
    subscripted by a key, or it returns a dictionary.  The files of the
    robot, by path: a path is a file ([os.path.isfile]) exactly when it can be
    opened. *)
Definition document : Type := string -> option num.

Inductive content : Type :=
| Malformed
| NotMapping
| Mapping (yaml_dict : document).

Definition filesystem : Type := string -> option content.

Definition isfile (fs : filesystem) (path : string) : bool :=
  match fs path with
  | Some _ => true
  | None => false
  end.

(** [get_calib_params]: the outcome and what was logged on the way. *)
Definition get_calib_params (fs : filesystem) (veh_name : string)
    : (calib_exn + num * num) * list effect :=
  let cali_file :=
    String.append cali_folder
      (String.append "/" (String.append veh_name ".yaml")) in
  let log1 := [Log (String.append "Looking for calibration " cali_file)] in
  (* Locate calibration yaml file or use the default otherwise *)
  let '(cali_file, log2) :=
    if negb (isfile fs cali_file) then
      (String.append cali_folder "/default.yaml",
       log1 ++ [LogWarn
                  (String.append "Calibration not found: "
                     (String.append cali_file
                        (String.append newline " Using default instead.")))])
    else (cali_file, log1) in
  (* Shutdown if no calibration file not found *)
  let log3 :=
    if negb (isfile fs cali_file) then
      log2 ++ [SignalShutdown "Found no calibration file ... aborting"]
    else log2 in
  (* Load the calibration file *)
  match fs cali_file with
  | None => (inl (FileNotFoundError cali_file), log3)
  | Some Malformed => (inl YAMLError, log3)
  | Some NotMapping => (inl TypeError, log3)
  | Some (Mapping yaml_dict) =>
      match yaml_dict "baseline" with
      | None => (inl (KeyError "baseline"), log3)
      | Some baseline =>
          match yaml_dict "radius" with
          | None => (inl (KeyError "radius"), log3)
          | Some radius =>
              (inr (baseline, radius),
               log3 ++ [Log (String.append "Using calibration file: "
                               cali_file)])
          end
      end
  end.

End Calibration.

Section Delivery.
Context {A : Arith}.
Variables (baseline radius : num).

(** A message arriving on [topic]: every subscriber of that topic has the
    callback invoked with its tag; the outcomes are collected (the transport
    logs the exceptions), in the order of registration. *)
Fixpoint deliver (subs : list Subscription) (topic : string)
    (msg : WheelEncoderStamped.t) (s : Node) : list (outcome unit) * Node :=
  match subs with
  | [] => ([], s)
  | sub :: subs' =>
      if sub_topic sub =? topic then
        let r := cb_encoder_to_transform baseline radius msg
                   (callback_args sub) s in
        let rest := deliver subs' topic msg (snd r) in
        (fst r :: fst rest, snd rest)
      else deliver subs' topic msg s
  end.


End Delivery.

(** ** The callback statement by statement *)

(** The loop of [run] executes in the main thread while the callbacks
    execute in the threads of the subscribers: an iteration can find the
    node between two statements of a callback.  Each attribute assignment
    of the callback is one step. *)
Section Stages.
Context {A : Arith}.
Variables (baseline radius : num).

(** The states that a sequence of assignments leaves, one per assignment. *)
Fixpoint scan (stmts : list (Node -> Node)) (s : Node) : list Node :=
  match stmts with
  | [] => []
  | stmt :: stmts' => stmt s :: scan stmts' (stmt s)
  end.

(** The assignments that one call of the callback executes, in order: the
    branch of the wheel (lines 111 to 113 when the wheel is not yet
    initialised, then lines 116 and 118, or the same for the right wheel at
    lines 123 to 130), and then, unless the tag is unknown (line 133 raises)
    or the division of line 138 raises, lines 138, 142, 144, 145, 146 and
    156. *)
Definition cb_statements (msg : WheelEncoderStamped.t) (wheel : string)
    (s : Node) : list (Node -> Node) :=
  let data := WheelEncoderStamped.data msg in
  let estimation :=
    if eq_zero baseline then []
    else
      [ (fun s => set_theta (heading baseline s) s);
        set_transform_msg (Some TransformStamped.new);
        (fun s => set_transform_msg
           (option_map (TransformStamped.set_stamp
                          (stamp (WheelEncoderStamped.header msg)))
                       (transform_msg s)) s);
        (fun s => set_transform_msg
           (option_map (TransformStamped.set_frame_id "map")
                       (transform_msg s)) s);
        (fun s => set_transform_msg
           (option_map (TransformStamped.set_child_frame_id "encoder_baselink")
                       (transform_msg s)) s);
        set_encoder_received true ] in
  if wheel =? "left" then
    (if negb (initialised_ticks_left s) then
       [ set_total_ticks_left data;
         set_initial_ticks_left data;
         set_initialised_ticks_left true ]
     else []) ++
    [ (fun s => set_wheel_distance_left
         (add (wheel_distance_left s)
              (distance radius (data - total_ticks_left s))) s);
      set_total_ticks_left data ] ++
    estimation
  else if wheel =? "right" then
    (if negb (initialised_ticks_right s) then
       [ set_total_ticks_right data;
         set_initial_ticks_right data;
         set_initialised_ticks_right true ]
     else []) ++
    [ (fun s => set_wheel_distance_right
         (add (wheel_distance_right s)
              (distance radius (data - total_ticks_right s))) s);
      set_total_ticks_right data ] ++
    estimation
  else [].

(** The states the node passes through during one call of the callback,
    the state at the end of the call last. *)
Definition cb_stages (msg : WheelEncoderStamped.t) (wheel : string)
    (s : Node) : list Node :=
  scan (cb_statements msg wheel s) s.


(** The message of a tick while lines 142 to 146 fill it in: fresh, with
    the stamp, with the parent frame, with the child frame. *)
Definition filling (msg : WheelEncoderStamped.t) : list TransformStamped.t :=
  [ TransformStamped.new;
    TransformStamped.set_stamp (stamp (WheelEncoderStamped.header msg))
      TransformStamped.new;
    TransformStamped.set_frame_id "map"
      (TransformStamped.set_stamp (stamp (WheelEncoderStamped.header msg))
         TransformStamped.new);
    stamped msg ].

End Stages.

(** The two paths [get_calib_params] looks at: the vehicle's own file and
    the default one. *)
Definition vehicle_file (veh_name : string) : string :=
  String.append cali_folder
    (String.append "/" (String.append veh_name ".yaml")).

Definition default_file : string :=
  String.append cali_folder "/default.yaml".

(** A robot's calibration folder, for the concrete instances below. *)
Module Robot.

Definition veh_name : string := "duckiebot".

(** A complete file, with the baseline and radius of [Scenario]. *)
Definition complete : @document binary64 :=
  fun key =>
    if key =? "baseline" then Some Scenario.baseline
    else if key =? "radius" then Some Scenario.radius
    else None.

(** A file that lacks the radius. *)
Definition no_radius : @document binary64 :=
  fun key => if key =? "baseline" then Some Scenario.baseline else None.

(** Only the vehicle's file; only the default file; beside a complete
    default file, the vehicle's file without a radius, and the vehicle's
    file empty. *)
Definition own_only : @filesystem binary64 :=
  fun path =>
    if path =? vehicle_file veh_name then Some (Mapping complete) else None.

Definition default_only : @filesystem binary64 :=
  fun path => if path =? default_file then Some (Mapping complete) else None.

Definition own_incomplete : @filesystem binary64 :=
  fun path =>
    if path =? vehicle_file veh_name then Some (Mapping no_radius)
    else if path =? default_file then Some (Mapping complete)
    else None.

Definition own_empty : @filesystem binary64 :=
  fun path =>
    if path =? vehicle_file veh_name then Some NotMapping
    else if path =? default_file then Some (Mapping complete)
    else None.

End Robot.

(** * Properties *)

(** ** The callback, branch by branch *)

Section Callback.
Context {A : Arith}.
Variables (baseline radius : num).

#[local] Abbreviation cb := (cb_encoder_to_transform baseline radius).
#[local] Abbreviation data := WheelEncoderStamped.data.

Lemma cb_left (msg : WheelEncoderStamped.t) (s : Node) :
  cb msg "left" s =
  if eq_zero baseline
  then (Raise ZeroDivisionError, update_left radius msg s)
  else (Return tt, estimate baseline msg (update_left radius msg s)).
Proof.
  destruct s as [rec il tl jl dl ir tr jr dr th tm].
  destruct il; cbv - [add sub mul div of_int np_pi np_mod eq_zero Z.sub];
    destruct (eq_zero baseline); reflexivity.
Qed.

Lemma cb_right (msg : WheelEncoderStamped.t) (s : Node) :
  cb msg "right" s =
  if eq_zero baseline
  then (Raise ZeroDivisionError, update_right radius msg s)
  else (Return tt, estimate baseline msg (update_right radius msg s)).
Proof.
  destruct s as [rec il tl jl dl ir tr jr dr th tm].
  destruct ir; cbv - [add sub mul div of_int np_pi np_mod eq_zero Z.sub];
    destruct (eq_zero baseline); reflexivity.
Qed.

Lemma cb_unknown (msg : WheelEncoderStamped.t) (wheel : string) (s : Node) :
  wheel <> "left" -> wheel <> "right" ->
  cb msg wheel s = (Raise (NameError "wheel name not found"), s).
Proof.
  intros Hl Hr.
  unfold cb_encoder_to_transform, bind, raise.
  apply String.eqb_neq in Hl. apply String.eqb_neq in Hr.
  rewrite Hl, Hr. reflexivity.
Qed.

(** The three cases of the tag. *)
Lemma wheel_cases (wheel : string) :
  wheel = "left" \/ wheel = "right" \/ (wheel <> "left" /\ wheel <> "right").
Proof.
  destruct (String.eqb_spec wheel "left") as [-> | Hl]; [now left |].
  destruct (String.eqb_spec wheel "right") as [-> | Hr]; [now right; left |].
  right; right; split; assumption.
Qed.

(** A callback that returns was given a known tag and a non-zero baseline,
    and has run the estimation on the updated tracker. *)
Lemma cb_returns (msg : WheelEncoderStamped.t) (wheel : string) (s : Node) :
  fst (cb msg wheel s) = Return tt ->
  eq_zero baseline = false /\
  ((wheel = "left" /\
    snd (cb msg wheel s) = estimate baseline msg (update_left radius msg s))
   \/ (wheel = "right" /\
       snd (cb msg wheel s) =
       estimate baseline msg (update_right radius msg s))).
Proof.
  destruct (wheel_cases wheel) as [-> | [-> | [Hl Hr]]].
  - rewrite cb_left. destruct (eq_zero baseline); simpl; [discriminate |].
    intros _. split; [reflexivity | left; split; reflexivity].
  - rewrite cb_right. destruct (eq_zero baseline); simpl; [discriminate |].
    intros _. split; [reflexivity | right; split; reflexivity].
  - rewrite (cb_unknown msg wheel s Hl Hr). simpl. discriminate.
Qed.

(** With a known tag and a non-zero baseline the callback returns. *)
Lemma cb_succeeds (msg : WheelEncoderStamped.t) (wheel : string) (s : Node) :
  wheel = "left" \/ wheel = "right" ->
  eq_zero baseline = false ->
  fst (cb msg wheel s) = Return tt.
Proof.
  intros [-> | ->] Hb; [rewrite cb_left | rewrite cb_right];
    rewrite Hb; reflexivity.
Qed.

End Callback.

(** ** The publish loop and traces *)

Section Traces.
Context {A : Arith}.
Variables (baseline radius : num).

#[local] Abbreviation cb := (cb_encoder_to_transform baseline radius).
#[local] Abbreviation data := WheelEncoderStamped.data.

Lemma run_cycle_spec (s : Node) :
  run_cycle s =
  if encoder_received s then
    match transform_msg s with
    | Some m => (Return [Publish m; SendTransform m], s)
    | None => (Raise (AttributeError "transform_msg"), s)
    end
  else (Return [], s).
Proof.
  unfold run_cycle, bind, gets, ret, raise.
  destruct (encoder_received s); [destruct (transform_msg s) |]; reflexivity.
Qed.

(** The loop only reads the node. *)
Lemma run_cycle_state (s : Node) : snd (run_cycle s) = s.
Proof.
  rewrite run_cycle_spec.
  destruct (encoder_received s); [destruct (transform_msg s) |]; reflexivity.
Qed.

Lemma consistent_init : consistent baseline init.
Proof.
  unfold consistent; simpl. repeat split; intros; try discriminate; reflexivity.
Qed.

Lemma consistent_cb (msg : WheelEncoderStamped.t) (wheel : string) (s : Node) :
  consistent baseline s -> consistent baseline (snd (cb msg wheel s)).
Proof.
  intros Hs.
  destruct (wheel_cases wheel) as [-> | [-> | [Hnl Hnr]]].
  - rewrite cb_left. unfold consistent, estimate, update_left, heading in *.
    destruct s as [rec il tl jl dl ir tr jr dr th tm]; simpl in *.
    destruct (eq_zero baseline) eqn:Hb, il, rec; simpl;
      intuition (try congruence; eauto).
  - rewrite cb_right. unfold consistent, estimate, update_right, heading in *.
    destruct s as [rec il tl jl dl ir tr jr dr th tm]; simpl in *.
    destruct (eq_zero baseline) eqn:Hb, ir, rec; simpl;
      intuition (try congruence; eauto).
  - rewrite (cb_unknown baseline radius msg wheel s Hnl Hnr). exact Hs.
Qed.

(** In a consistent node the loop body does not raise. *)
Lemma run_cycle_returns (s : Node) :
  consistent baseline s -> exists out, run_cycle s = (Return out, s).
Proof.
  intros (Hup & _). rewrite run_cycle_spec.
  destruct (encoder_received s); [| eauto].
  destruct (Hup eq_refl) as (_ & _ & m & ->). eauto.
Qed.

Lemma exec_tick (wheel : string) (msg : WheelEncoderStamped.t)
    (evs : list event) (s : Node) :
  exec baseline radius (Tick wheel msg :: evs) s =
  exec baseline radius evs (snd (cb msg wheel s)).
Proof. reflexivity. Qed.

Lemma exec_cycle (evs : list event) (s : Node) :
  consistent baseline s ->
  snd (exec baseline radius (Cycle :: evs) s) =
  snd (exec baseline radius evs s).
Proof.
  intros Hs. destruct (run_cycle_returns s Hs) as (out & Hout).
  simpl. unfold bind at 1. rewrite Hout.
  unfold bind, ret.
  destruct (exec baseline radius evs s) as [[rest | e] s']; reflexivity.
Qed.

(** A property of nodes that every callback preserves holds after every
    trace. *)
Lemma exec_preserves (P : Node -> Prop) :
  (forall msg wheel s,
     consistent baseline s -> P s -> P (snd (cb msg wheel s))) ->
  forall evs s,
    consistent baseline s -> P s -> P (snd (exec baseline radius evs s)).
Proof.
  intros Hcb evs. induction evs as [| [wheel msg |] evs IH]; intros s Hs HP.
  - exact HP.
  - rewrite exec_tick. apply IH; [apply consistent_cb | apply Hcb]; assumption.
  - rewrite exec_cycle by assumption. apply IH; assumption.
Qed.

Lemma consistent_exec (evs : list event) (s : Node) :
  consistent baseline s ->
  consistent baseline (snd (exec baseline radius evs s)).
Proof.
  intros Hs. apply (exec_preserves (consistent baseline)); auto.
  intros msg wheel s0 H0 _. apply consistent_cb; assumption.
Qed.

Lemma consistent_after (evs : list event) :
  consistent baseline (after baseline radius evs).
Proof. apply consistent_exec, consistent_init. Qed.

(** A trace never makes the loop raise. *)
Lemma exec_returns (evs : list event) (s : Node) :
  consistent baseline s ->
  exists out, fst (exec baseline radius evs s) = Return out.
Proof.
  revert s. induction evs as [| [wheel msg |] evs IH]; intros s Hs.
  - simpl. eauto.
  - rewrite exec_tick. apply IH, consistent_cb, Hs.
  - destruct (run_cycle_returns s Hs) as (out & Hout).
    destruct (IH s Hs) as (rest & Hrest).
    exists (out ++ rest). simpl. unfold bind at 1. rewrite Hout.
    unfold bind, ret. destruct (exec baseline radius evs s) as [[r | e] s'];
      simpl in *; congruence.
Qed.

End Traces.

(** ** The ready flag, the loop's output and the error path *)

Section Node_properties.
Context {A : Arith}.
Variables (baseline radius : num).

#[local] Abbreviation cb := (cb_encoder_to_transform baseline radius).
#[local] Abbreviation after := (after baseline radius).

Lemma exec_app (evs1 evs2 : list event) (s : Node) :
  consistent baseline s ->
  snd (exec baseline radius (evs1 ++ evs2) s) =
  snd (exec baseline radius evs2 (snd (exec baseline radius evs1 s))).
Proof.
  revert s. induction evs1 as [| [wheel msg |] evs1 IH]; intros s Hs.
  - reflexivity.
  - rewrite <- app_comm_cons, !exec_tick. apply IH, consistent_cb, Hs.
  - rewrite <- app_comm_cons, !exec_cycle by assumption. apply IH, Hs.
Qed.

Lemma after_app (evs1 evs2 : list event) :
  after (evs1 ++ evs2) = snd (exec baseline radius evs2 (after evs1)).
Proof. apply exec_app, consistent_init. Qed.

Lemma after_tick
    (evs : list event) (wheel : string) (msg : WheelEncoderStamped.t) :
  after (evs ++ [Tick wheel msg]) = snd (cb msg wheel (after evs)).
Proof. rewrite after_app. reflexivity. Qed.

Lemma after_cycle (evs : list event) : after (evs ++ [Cycle]) = after evs.
Proof.
  rewrite after_app, exec_cycle by apply consistent_after. reflexivity.
Qed.

(** A callback that raises leaves the flag as it was. *)
Lemma cb_raises_flag (msg : WheelEncoderStamped.t) (wheel : string) (s : Node) :
  fst (cb msg wheel s) <> Return tt ->
  encoder_received (snd (cb msg wheel s)) = encoder_received s.
Proof.
  destruct (wheel_cases wheel) as [-> | [-> | [Hl Hr]]].
  - rewrite cb_left. destruct (eq_zero baseline); simpl; [| congruence].
    intros _. unfold update_left.
    destruct (initialised_ticks_left s); reflexivity.
  - rewrite cb_right. destruct (eq_zero baseline); simpl; [| congruence].
    intros _. unfold update_right.
    destruct (initialised_ticks_right s); reflexivity.
  - rewrite (cb_unknown baseline radius msg wheel s Hl Hr). reflexivity.
Qed.

(** A callback that returns has raised the flag. *)
Lemma cb_returns_flag
    (msg : WheelEncoderStamped.t) (wheel : string) (s : Node) :
  fst (cb msg wheel s) = Return tt ->
  encoder_received (snd (cb msg wheel s)) = true.
Proof.
  intros H. destruct (cb_returns baseline radius msg wheel s H)
    as (_ & [(_ & ->) | (_ & ->)]); reflexivity.
Qed.

(** No callback lowers the flag. *)
Lemma cb_keeps_flag (msg : WheelEncoderStamped.t) (wheel : string) (s : Node) :
  encoder_received s = true ->
  encoder_received (snd (cb msg wheel s)) = true.
Proof.
  intros Hs. destruct (fst (cb msg wheel s)) as [[] | e] eqn:Hr.
  - apply cb_returns_flag, Hr.
  - rewrite cb_raises_flag; [exact Hs | congruence].
Qed.

Lemma outcome_unit_dec (o : outcome unit) : {o = Return tt} + {o <> Return tt}.
Proof. destruct o as [[] | e]; [left; reflexivity | right; discriminate]. Qed.

(** C4: the flag [encoder_received] is false in the node [__init__] builds
    and after any number of loop iterations with no tick; a callback that
    returns leaves it true and one that raises leaves it as it was; once true
    after a trace it is true after every longer trace; and it is true after a
    trace only if some tick of the trace was processed to the end. *)
Theorem encoder_received_latches :
  encoder_received init = false /\
  (forall n, encoder_received (after (repeat Cycle n)) = false) /\
  (forall msg wheel s,
     fst (cb msg wheel s) = Return tt ->
     encoder_received (snd (cb msg wheel s)) = true) /\
  (forall msg wheel s,
     fst (cb msg wheel s) <> Return tt ->
     encoder_received (snd (cb msg wheel s)) = encoder_received s) /\
  (forall evs evs',
     encoder_received (after evs) = true ->
     encoder_received (after (evs ++ evs')) = true) /\
  (forall evs,
     encoder_received (after evs) = true ->
     exists evs1 wheel msg evs2,
       evs = evs1 ++ Tick wheel msg :: evs2 /\
       fst (cb msg wheel (after evs1)) = Return tt).
Proof.
  split; [reflexivity |].
  split.
  { induction n as [| n IH]; [reflexivity |].
    change (repeat Cycle (S n)) with ([Cycle] ++ repeat Cycle n).
    rewrite after_app.
    replace (after [Cycle]) with (after []); [exact IH |].
    symmetry. apply (after_cycle []). }
  split; [exact cb_returns_flag |].
  split; [exact cb_raises_flag |].
  split.
  { intros evs evs' H. rewrite after_app.
    apply (exec_preserves baseline radius
             (fun s => encoder_received s = true)); auto.
    - intros msg wheel s _. apply cb_keeps_flag.
    - apply consistent_after. }
  induction evs as [| e evs IH] using rev_ind; [discriminate |].
  destruct e as [wheel msg |].
  - rewrite after_tick.
    destruct (outcome_unit_dec (fst (cb msg wheel (after evs)))) as [Hok | Hko].
    + intros _. exists evs, wheel, msg, []. split; [reflexivity | exact Hok].
    + rewrite cb_raises_flag by exact Hko. intros H.
      destruct (IH H) as (evs1 & w & m & evs2 & -> & Hok).
      exists evs1, w, m, (evs2 ++ [Tick wheel msg]). split; [| exact Hok].
      rewrite <- app_assoc. reflexivity.
  - rewrite after_cycle. intros H.
    destruct (IH H) as (evs1 & w & m & evs2 & -> & Hok).
    exists evs1, w, m, (evs2 ++ [Cycle]). split; [| exact Hok].
    rewrite <- app_assoc. reflexivity.
Qed.

Lemma run_spec (n : nat) (s : Node) :
  run n s =
  if encoder_received s then
    match transform_msg s with
    | Some m =>
        (Return (List.concat (repeat [Publish m; SendTransform m] n)), s)
    | None =>
        match n with
        | O => (Return [], s)
        | S _ => (Raise (AttributeError "transform_msg"), s)
        end
    end
  else (Return [], s).
Proof.
  induction n as [| n IH]; simpl.
  - unfold ret. destruct (encoder_received s); [destruct (transform_msg s) |];
      reflexivity.
  - unfold bind at 1. rewrite run_cycle_spec.
    destruct (encoder_received s); [destruct (transform_msg s) |];
      try reflexivity; unfold bind; rewrite IH; reflexivity.
Qed.

(** C5: after any trace, [n] iterations of the publish loop emit nothing
    while [encoder_received] is false; while it is true a transform message
    is stored and every iteration hands that same message once to the
    publisher and once to the broadcaster.  The loop leaves the node as it
    found it. *)
Theorem run_emits_stored_transform (evs : list event) (n : nat) :
  (encoder_received (after evs) = false ->
     run n (after evs) = (Return [], after evs)) /\
  (encoder_received (after evs) = true ->
     exists m,
       transform_msg (after evs) = Some m /\
       run_cycle (after evs) =
       (Return [Publish m; SendTransform m], after evs) /\
       run n (after evs) =
       (Return (List.concat (repeat [Publish m; SendTransform m] n)),
        after evs)).
Proof.
  destruct (consistent_after baseline radius evs) as (Hup & _).
  rewrite run_spec, run_cycle_spec. split; intros H; rewrite H.
  - reflexivity.
  - destruct (Hup H) as (_ & _ & m & Hm). exists m. rewrite Hm. auto.
Qed.

(** C6: with a tag that is neither "left" nor "right" the callback raises
    [NameError]; it does not return. *)
Theorem unknown_wheel_raises
    (msg : WheelEncoderStamped.t) (wheel : string) (s : Node) :
  wheel <> "left" -> wheel <> "right" ->
  fst (cb msg wheel s) = Raise (NameError "wheel name not found") /\
  fst (cb msg wheel s) <> Return tt.
Proof.
  intros Hl Hr. rewrite (cb_unknown baseline radius msg wheel s Hl Hr). simpl.
  split; [reflexivity | discriminate].
Qed.

(** C10: with a tag that is neither "left" nor "right" the callback raises
    with the node exactly as it was: both trackers, the heading, the stored
    message and the flag are those of the node before the call. *)
Theorem unknown_wheel_leaves_node
    (msg : WheelEncoderStamped.t) (wheel : string) (s : Node) :
  wheel <> "left" -> wheel <> "right" ->
  let s' := snd (cb msg wheel s) in
  s' = s /\
  (initialised_ticks_left s', total_ticks_left s', initial_ticks_left s',
   wheel_distance_left s') =
  (initialised_ticks_left s, total_ticks_left s, initial_ticks_left s,
   wheel_distance_left s) /\
  (initialised_ticks_right s', total_ticks_right s', initial_ticks_right s',
   wheel_distance_right s') =
  (initialised_ticks_right s, total_ticks_right s, initial_ticks_right s,
   wheel_distance_right s) /\
  theta s' = theta s /\
  transform_msg s' = transform_msg s /\
  encoder_received s' = encoder_received s.
Proof.
  intros Hl Hr. rewrite (cb_unknown baseline radius msg wheel s Hl Hr). simpl.
  repeat split.
Qed.

(** C8: a callback that returns has stored a transform message whose stamp
    is the stamp of the tick message it was given, and the next loop
    iteration emits that message. *)
Theorem transform_stamp_is_tick_stamp
    (msg : WheelEncoderStamped.t) (wheel : string) (s : Node) :
  fst (cb msg wheel s) = Return tt ->
  exists m,
    transform_msg (snd (cb msg wheel s)) = Some m /\
    stamp (TransformStamped.header m) =
    stamp (WheelEncoderStamped.header msg) /\
    run_cycle (snd (cb msg wheel s)) =
    (Return [Publish m; SendTransform m], snd (cb msg wheel s)).
Proof.
  intros H. exists (stamped msg).
  destruct (cb_returns baseline radius msg wheel s H)
    as (_ & [(_ & ->) | (_ & ->)]); rewrite run_cycle_spec; simpl; auto.
Qed.

(** C9: a tick tagged "left" leaves the four attributes of the right tracker
    as they were, and a tick tagged "right" those of the left tracker,
    whatever the node and the tick value, and whether or not the callback
    returns. *)
Theorem tick_leaves_other_tracker (msg : WheelEncoderStamped.t) (s : Node) :
  (let s' := snd (cb msg "left" s) in
   initialised_ticks_right s' = initialised_ticks_right s /\
   total_ticks_right s' = total_ticks_right s /\
   initial_ticks_right s' = initial_ticks_right s /\
   wheel_distance_right s' = wheel_distance_right s) /\
  (let s' := snd (cb msg "right" s) in
   initialised_ticks_left s' = initialised_ticks_left s /\
   total_ticks_left s' = total_ticks_left s /\
   initial_ticks_left s' = initial_ticks_left s /\
   wheel_distance_left s' = wheel_distance_left s).
Proof.
  rewrite cb_left, cb_right. unfold estimate, update_left, update_right.
  destruct s as [rec il tl jl dl ir tr jr dr th tm]; simpl.
  destruct (eq_zero baseline), il, ir; simpl; repeat split.
Qed.

End Node_properties.

(** ** The wheel trackers *)

Section Trackers.
Context {A : Arith}.
Variables (baseline radius : num).

#[local] Abbreviation cb := (cb_encoder_to_transform baseline radius).
#[local] Abbreviation data := WheelEncoderStamped.data.

Lemma left_tracker_cb
    (msg : WheelEncoderStamped.t) (wheel : string) (s : Node) :
  left_tracker (snd (cb msg wheel s)) =
  if wheel =? "left" then tracker_update radius (left_tracker s) (data msg)
  else left_tracker s.
Proof.
  destruct (wheel_cases wheel) as [-> | [-> | [Hl Hr]]].
  - rewrite cb_left. unfold left_tracker, estimate, update_left.
    destruct s as [rec il tl jl dl ir tr jr dr th tm]; simpl.
    destruct (eq_zero baseline), il; reflexivity.
  - rewrite cb_right. unfold left_tracker, estimate, update_right.
    destruct s as [rec il tl jl dl ir tr jr dr th tm]; simpl.
    destruct (eq_zero baseline), ir; reflexivity.
  - rewrite (cb_unknown baseline radius msg wheel s Hl Hr).
    apply String.eqb_neq in Hl. rewrite Hl. reflexivity.
Qed.

Lemma right_tracker_cb
    (msg : WheelEncoderStamped.t) (wheel : string) (s : Node) :
  right_tracker (snd (cb msg wheel s)) =
  if wheel =? "right" then tracker_update radius (right_tracker s) (data msg)
  else right_tracker s.
Proof.
  destruct (wheel_cases wheel) as [-> | [-> | [Hl Hr]]].
  - rewrite cb_left. unfold right_tracker, estimate, update_left.
    destruct s as [rec il tl jl dl ir tr jr dr th tm]; simpl.
    destruct (eq_zero baseline), il; reflexivity.
  - rewrite cb_right. unfold right_tracker, estimate, update_right.
    destruct s as [rec il tl jl dl ir tr jr dr th tm]; simpl.
    destruct (eq_zero baseline), ir; reflexivity.
  - rewrite (cb_unknown baseline radius msg wheel s Hl Hr).
    apply String.eqb_neq in Hr. rewrite Hr. reflexivity.
Qed.

(** Along a trace each tracker sees its own readings and nothing else. *)
Lemma tracker_exec (view : Node -> tracker) (wheel : string) :
  (forall msg w s,
     view (snd (cb msg w s)) =
     if w =? wheel then tracker_update radius (view s) (data msg)
     else view s) ->
  forall evs s,
    consistent baseline s ->
    view (snd (exec baseline radius evs s)) =
    fold_left (tracker_update radius) (readings wheel evs) (view s).
Proof.
  intros Hview evs. induction evs as [| [w msg |] evs IH]; intros s Hs.
  - reflexivity.
  - rewrite exec_tick, IH by (apply consistent_cb, Hs). rewrite Hview. simpl.
    destruct (w =? wheel); reflexivity.
  - rewrite exec_cycle by exact Hs. apply IH, Hs.
Qed.

Lemma fold_tracker_update (ts : list Z) (total : Z) (d : num) :
  snd (fold_left (tracker_update radius) ts (true, total, d)) =
  accumulate radius d total ts.
Proof.
  revert total d. induction ts as [| t ts IH]; intros total d.
  - reflexivity.
  - simpl. apply IH.
Qed.

Lemma fold_tracker_init (ts : list Z) :
  snd (fold_left (tracker_update radius) ts (false, 0, of_int 0)) =
  accumulated radius ts.
Proof.
  destruct ts as [| t0 ts]; [reflexivity |].
  simpl. apply fold_tracker_update.
Qed.

Lemma wheel_distance_left_after (evs : list event) :
  wheel_distance_left (after baseline radius evs) =
  accumulated radius (readings "left" evs).
Proof.
  rewrite <- fold_tracker_init.
  change (wheel_distance_left (after baseline radius evs))
    with (snd (left_tracker (after baseline radius evs))).
  unfold after.
  rewrite (tracker_exec left_tracker "left" left_tracker_cb)
    by apply consistent_init.
  reflexivity.
Qed.

Lemma wheel_distance_right_after (evs : list event) :
  wheel_distance_right (after baseline radius evs) =
  accumulated radius (readings "right" evs).
Proof.
  rewrite <- fold_tracker_init.
  change (wheel_distance_right (after baseline radius evs))
    with (snd (right_tracker (after baseline radius evs))).
  unfold after.
  rewrite (tracker_exec right_tracker "right" right_tracker_cb)
    by apply consistent_init.
  reflexivity.
Qed.

(** The heading is assigned by the estimation step only. *)
Lemma cb_raises_theta
    (msg : WheelEncoderStamped.t) (wheel : string) (s : Node) :
  fst (cb msg wheel s) <> Return tt -> theta (snd (cb msg wheel s)) = theta s.
Proof.
  destruct (wheel_cases wheel) as [-> | [-> | [Hl Hr]]].
  - rewrite cb_left. destruct (eq_zero baseline); simpl; [| congruence].
    intros _. unfold update_left.
    destruct (initialised_ticks_left s); reflexivity.
  - rewrite cb_right. destruct (eq_zero baseline); simpl; [| congruence].
    intros _. unfold update_right.
    destruct (initialised_ticks_right s); reflexivity.
  - rewrite (cb_unknown baseline radius msg wheel s Hl Hr). reflexivity.
Qed.

Lemma cb_returns_theta
    (msg : WheelEncoderStamped.t) (wheel : string) (s : Node) :
  fst (cb msg wheel s) = Return tt ->
  theta (snd (cb msg wheel s)) = heading baseline (snd (cb msg wheel s)).
Proof.
  intros H. destruct (cb_returns baseline radius msg wheel s H)
    as (_ & [(_ & ->) | (_ & ->)]); reflexivity.
Qed.

End Trackers.

(** ** Exact arithmetic: telescoping and the range of the heading *)

Section Exact_arithmetic.
Variables (baseline radius : R).

Lemma exact_eq_zero (y : R) : @eq_zero exact y = false <-> y <> 0%R.
Proof.
  simpl. unfold Exact.eq_zero. destruct (Req_dec_T y 0); split; intros H;
    try discriminate; try reflexivity; try assumption. contradiction.
Qed.

(** For a positive modulus the result lies in [[0, b)]. *)
Lemma exact_np_mod_range (a b : R) :
  (0 < b)%R -> (0 <= Exact.np_mod a b < b)%R.
Proof.
  intros Hb. unfold Exact.np_mod.
  destruct (Zfloor_bound (a / b)) as [Hlo Hhi].
  assert (Ha : a = (a / b * b)%R) by (field; lra).
  set (k := IZR (Zfloor (a / b))) in *. set (q := (a / b)%R) in *.
  rewrite Ha. split; nra.
Qed.

Lemma exact_distance (dN : Z) :
  distance (A := exact) radius dN = (2 * PI * radius / 135 * IZR dN)%R.
Proof. unfold distance, encoder_resolution. simpl. field. Qed.

Lemma last_cons (ts : list Z) (t d : Z) : last (t :: ts) d = last ts t.
Proof.
  revert t d. induction ts as [| u ts IH]; intros t d; [reflexivity |].
  change (last (t :: u :: ts) d) with (last (u :: ts) d).
  rewrite !IH. reflexivity.
Qed.

Lemma exact_accumulate (ts : list Z) (d : R) (total : Z) :
  accumulate (A := exact) radius d total ts =
  (d + 2 * PI * radius / 135 * IZR (last ts total - total))%R.
Proof.
  revert d total. induction ts as [| t ts IH]; intros d total.
  - simpl. rewrite Z.sub_diag. lra.
  - cbn [accumulate]. rewrite IH, exact_distance.
    rewrite last_cons. simpl. rewrite !minus_IZR. lra.
Qed.

(** The deltas telescope: only the first and the last reading remain. *)
Lemma exact_accumulated (t0 : Z) (ts : list Z) :
  accumulated (A := exact) radius (t0 :: ts) =
  (2 * PI * radius / 135 * IZR (last ts t0 - t0))%R.
Proof.
  unfold accumulated. rewrite exact_accumulate, last_cons.
  simpl. lra.
Qed.

(** A reading below the previous one adds a negative distance. *)
Lemma exact_distance_negative (dN : Z) :
  (0 < radius)%R -> dN < 0 -> (distance (A := exact) radius dN < 0)%R.
Proof.
  intros Hr HdN. rewrite exact_distance.
  assert (HPI := PI_RGT_0). apply IZR_lt in HdN.
  assert (Hc : (0 < 2 * PI * radius / 135)%R).
  { apply Rdiv_lt_0_compat; nra. }
  nra.
Qed.

Lemma exact_heading_range (s : Node) :
  (0 <= heading (A := exact) baseline s < 2 * PI)%R.
Proof.
  unfold heading. simpl. apply exact_np_mod_range.
  assert (HPI := PI_RGT_0). lra.
Qed.

End Exact_arithmetic.

(** ** The first tick of a wheel *)

Section First_tick.
Context {A : Arith}.
Variables (baseline radius : num).

#[local] Abbreviation cb := (cb_encoder_to_transform baseline radius).
#[local] Abbreviation data := WheelEncoderStamped.data.

Lemma first_tick_left (msg : WheelEncoderStamped.t) (s : Node) :
  initialised_ticks_left s = false ->
  seeded radius msg (wheel_distance_left s)
    (initialised_ticks_left (snd (cb msg "left" s)),
     total_ticks_left (snd (cb msg "left" s)),
     initial_ticks_left (snd (cb msg "left" s)),
     wheel_distance_left (snd (cb msg "left" s))).
Proof.
  intros Hi. rewrite cb_left. unfold seeded, estimate, update_left.
  rewrite Hi. destruct s as [rec il tl jl dl ir tr jr dr th tm]; simpl.
  rewrite Z.sub_diag. destruct (eq_zero baseline); reflexivity.
Qed.

Lemma first_tick_right (msg : WheelEncoderStamped.t) (s : Node) :
  initialised_ticks_right s = false ->
  seeded radius msg (wheel_distance_right s)
    (initialised_ticks_right (snd (cb msg "right" s)),
     total_ticks_right (snd (cb msg "right" s)),
     initial_ticks_right (snd (cb msg "right" s)),
     wheel_distance_right (snd (cb msg "right" s))).
Proof.
  intros Hi. rewrite cb_right. unfold seeded, estimate, update_right.
  rewrite Hi. destruct s as [rec il tl jl dl ir tr jr dr th tm]; simpl.
  rewrite Z.sub_diag. destruct (eq_zero baseline); reflexivity.
Qed.

Lemma first_tick_left_distance (msg : WheelEncoderStamped.t) (s : Node) :
  initialised_ticks_left s = false ->
  wheel_distance_left (snd (cb msg "left" s)) =
  add (wheel_distance_left s) (distance radius 0).
Proof.
  intros Hi. pose proof (first_tick_left msg s Hi) as Hs.
  unfold seeded in Hs. congruence.
Qed.

Lemma first_tick_right_distance (msg : WheelEncoderStamped.t) (s : Node) :
  initialised_ticks_right s = false ->
  wheel_distance_right (snd (cb msg "right" s)) =
  add (wheel_distance_right s) (distance radius 0).
Proof.
  intros Hi. pose proof (first_tick_right msg s Hi) as Hs.
  unfold seeded in Hs. congruence.
Qed.

(** A tracker that has seen no tick has accumulated nothing. *)
Lemma fresh_left (evs : list event) :
  initialised_ticks_left (after baseline radius evs) = false ->
  wheel_distance_left (after baseline radius evs) = of_int 0.
Proof. apply (consistent_after baseline radius evs). Qed.

Lemma fresh_right (evs : list event) :
  initialised_ticks_right (after baseline radius evs) = false ->
  wheel_distance_right (after baseline radius evs) = of_int 0.
Proof. apply (consistent_after baseline radius evs). Qed.

End First_tick.

(** ** Binary64: zero deltas *)

(** In binary64 the delta of zero ticks is a zero as long as [2 * np.pi *
    radius] has not overflowed. *)
Lemma b64_distance_zero (radius : B64.t) :
  B64.is_finite (B64.mul (B64.mul (B64.of_int 2) B64.pi) radius) = true ->
  exists sg, distance (A := binary64) radius 0 = S754_zero sg.
Proof.
  change (distance (A := binary64) radius 0)
    with (B64.div (B64.mul (B64.mul (B64.mul (B64.of_int 2) B64.pi) radius)
                     (B64.of_int 0)) (B64.of_int encoder_resolution)).
  destruct (B64.mul (B64.mul (B64.of_int 2) B64.pi) radius)
    as [sg | sg | | sg m e];
    simpl; intros H; try discriminate; eexists; reflexivity.
Qed.

(** Adding a zero of either sign to [0.0] gives [0.0]. *)
Lemma b64_add_zero (sg : bool) : B64.add B64.zero (S754_zero sg) = B64.zero.
Proof. destruct sg; reflexivity. Qed.

Lemma b64_zero_eqb (sg : bool) : B64.eqb (S754_zero sg) B64.zero = true.
Proof. reflexivity. Qed.

(** ** Binary64: the range of [np.mod] by [2.0 * np.pi] *)

Lemma fexp_b64 (e : Z) : fexp B64.prec B64.emax e = Z.max (e - 53) (-1074).
Proof. reflexivity. Qed.

Lemma digits2_pos_bounds (p : positive) :
  2 ^ (Zpos (digits2_pos p) - 1) <= Zpos p < 2 ^ Zpos (digits2_pos p).
Proof.
  induction p as [p IH | p IH |]; simpl digits2_pos.
  - rewrite Pos2Z.inj_succ. change (Zpos p~1) with (2 * Zpos p + 1).
    replace (Z.succ (Zpos (digits2_pos p)) - 1)
      with (Z.succ (Zpos (digits2_pos p) - 1)) by lia.
    rewrite !Z.pow_succ_r by lia.
    destruct IH as [IH1 IH2]. revert IH1 IH2.
    generalize (2 ^ (Zpos (digits2_pos p) - 1)), (2 ^ Zpos (digits2_pos p)).
    intros; lia.
  - rewrite Pos2Z.inj_succ. change (Zpos p~0) with (2 * Zpos p).
    replace (Z.succ (Zpos (digits2_pos p)) - 1)
      with (Z.succ (Zpos (digits2_pos p) - 1)) by lia.
    rewrite !Z.pow_succ_r by lia.
    destruct IH as [IH1 IH2]. revert IH1 IH2.
    generalize (2 ^ (Zpos (digits2_pos p) - 1)), (2 ^ Zpos (digits2_pos p)).
    intros; lia.
  - simpl. lia.
Qed.

(** The number of digits is determined by the bounds. *)
Lemma digits2_pos_unique (p : positive) (n : Z) :
  2 ^ (n - 1) <= Zpos p < 2 ^ n -> Zpos (digits2_pos p) = n.
Proof.
  intros [Hlo Hhi]. destruct (digits2_pos_bounds p) as [Dlo Dhi].
  set (d := Zpos (digits2_pos p)) in *.
  assert (Hd : 0 < d) by (unfold d; lia).
  assert (Hn : 0 < n).
  { destruct (Z.lt_ge_cases 0 n) as [H | H]; [exact H |].
    destruct (Z.eq_dec n 0) as [-> | Hne].
    - simpl in Hhi. lia.
    - rewrite (Z.pow_neg_r 2 n) in Hhi by lia. lia. }
  destruct (Z.lt_trichotomy d n) as [H | [H | H]]; [| exact H |].
  - assert (2 ^ d <= 2 ^ (n - 1)) by (apply Z.pow_le_mono_r; lia). lia.
  - assert (2 ^ n <= 2 ^ (d - 1)) by (apply Z.pow_le_mono_r; lia). lia.
Qed.

Lemma iter_pos_inv {X : Type} (f : X -> X) (Inv : Z -> X -> Prop) :
  (forall k x, 0 <= k -> Inv k x -> Inv (k + 1) (f x)) ->
  forall p k x,
    0 <= k -> Inv k x -> Inv (k + Zpos p) (SpecFloat.iter_pos f p x).
Proof.
  intros Hstep. induction p as [p IH | p IH |]; intros k x Hk Hx; simpl.
  - replace (k + Zpos p~1) with ((k + 1 + Zpos p) + Zpos p) by lia.
    apply IH; [lia |]. apply IH; [lia |]. apply Hstep; assumption.
  - replace (k + Zpos p~0) with ((k + Zpos p) + Zpos p) by lia.
    apply IH; [lia |]. apply IH; assumption.
  - apply Hstep; assumption.
Qed.

Lemma shr_1_m (m : Z) (r s : bool) :
  0 <= m ->
  shr_m (shr_1 (Build_shr_record m r s)) = m / 2 /\
  shr_r (shr_1 (Build_shr_record m r s)) = Z.odd m /\
  shr_s (shr_1 (Build_shr_record m r s)) = orb r s.
Proof.
  intros Hm. destruct m as [| [p | p |] | p].
  - repeat split.
  - repeat split. change (Zpos p~1) with (2 * Zpos p + 1). simpl shr_m.
    apply (Z.div_unique _ _ _ 1); lia.
  - repeat split. change (Zpos p~0) with (2 * Zpos p). simpl shr_m.
    apply (Z.div_unique _ _ _ 0); lia.
  - repeat split.
  - lia.
Qed.

Lemma shifted_step (z : Z) (k : Z) (mrs : shr_record) :
  0 <= z -> 0 <= k -> B64.shifted z k mrs -> B64.shifted z (k + 1) (shr_1 mrs).
Proof.
  intros Hz Hk [Hm Hex]. destruct mrs as [m r s]. simpl in Hm, Hex.
  assert (Hm0 : 0 <= m)
    by (subst m; apply Z.div_pos; [lia | apply Z.pow_pos_nonneg; lia]).
  destruct (shr_1_m m r s Hm0) as (H1 & H2 & H3).
  assert (Hp : 0 < 2 ^ k) by (apply Z.pow_pos_nonneg; lia).
  assert (Hpow : 2 ^ (k + 1) = 2 ^ k * 2)
    by (rewrite Z.pow_add_r by lia; reflexivity).
  split.
  - rewrite H1, Hm, Hpow. rewrite Z.div_div by lia. reflexivity.
  - intros Hmod. rewrite H2, H3.
    apply Z.mod_divide in Hmod; [| lia]. destruct Hmod as [c Hc].
    assert (Hz' : z = (c * 2) * 2 ^ k) by (rewrite Hc, Hpow; ring).
    assert (Hzk : z mod 2 ^ k = 0) by (rewrite Hz'; apply Z_mod_mult).
    destruct (Hex Hzk) as [-> ->].
    assert (Hmc : m = c * 2) by (rewrite Hm, Hz'; apply Z_div_mult; lia).
    split; [| reflexivity].
    rewrite Hmc, Z.odd_mul, andb_false_r. reflexivity.
Qed.

Lemma pow2_pos (a : Z) : 0 <= a -> 0 < 2 ^ a.
Proof. intros. apply Z.pow_pos_nonneg; lia. Qed.

Lemma shifted_0 (z : Z) : B64.shifted z 0 (Build_shr_record z false false).
Proof.
  split; simpl.
  - rewrite Z.div_1_r. reflexivity.
  - intros _. split; reflexivity.
Qed.

Lemma shr_exact (z e n : Z) :
  0 <= z ->
  B64.shifted z (Z.max n 0) (fst (shr (Build_shr_record z false false) e n)) /\
  snd (shr (Build_shr_record z false false) e n) = e + Z.max n 0.
Proof.
  intros Hz. destruct n as [| p | p]; simpl shr.
  - split; [apply shifted_0 | simpl; lia].
  - split; [| simpl; lia].
    replace (Z.max (Zpos p) 0) with (0 + Zpos p) by lia.
    apply (iter_pos_inv shr_1 (B64.shifted z)); [| lia | apply shifted_0].
    intros k x Hk Hx. apply shifted_step; assumption.
  - split; [apply shifted_0 | simpl; lia].
Qed.

Lemma round_nearest_even_bounds (mrs : shr_record) :
  shr_m mrs <= round_nearest_even (shr_m mrs) (loc_of_shr_record mrs)
            <= shr_m mrs + 1 /\
  (shr_r mrs = false -> shr_s mrs = false ->
   round_nearest_even (shr_m mrs) (loc_of_shr_record mrs) = shr_m mrs).
Proof.
  destruct mrs as [m [|] [|]]; simpl; try destruct (Z.even m);
    (split; [lia | intros; try discriminate; reflexivity]).
Qed.

Lemma bound_lt : B64.bound < 2 ^ 1077.
Proof. reflexivity. Qed.

(** A value within the B64.bound has a small exponent once in canonical form. *)
Lemma canonical_exponent (p : positive) (e : Z) :
  -1074 <= e ->
  Zpos p * 2 ^ (e + 1074) <= B64.bound ->
  fexp B64.prec B64.emax (Zpos (digits2_pos p) + e) <= -50.
Proof.
  intros He Hv. rewrite fexp_b64.
  destruct (digits2_pos_bounds p) as [Dlo _].
  set (d := Zpos (digits2_pos p)) in *.
  assert (Hd : 0 < d) by (unfold d; lia).
  destruct (Z.le_gt_cases (d + e) 3) as [H | H]; [lia |].
  exfalso.
  assert (H1 : 2 ^ (d - 1) * 2 ^ (e + 1074) <= B64.bound).
  { eapply Z.le_trans; [| exact Hv].
    apply Z.mul_le_mono_nonneg_r;
      [apply Z.lt_le_incl, pow2_pos; lia | exact Dlo]. }
  rewrite <- Z.pow_add_r in H1 by lia.
  assert (H2 : 2 ^ 1077 <= 2 ^ (d - 1 + (e + 1074)))
    by (apply Z.pow_le_mono_r; lia).
  pose proof bound_lt. lia.
Qed.

Lemma shr_fexp_exact (z e : Z) :
  0 <= z ->
  let n := Z.max (fexp B64.prec B64.emax (Zdigits2 z + e) - e) 0 in
  B64.shifted z n (fst (shr_fexp B64.prec B64.emax z e loc_Exact)) /\
  snd (shr_fexp B64.prec B64.emax z e loc_Exact) = e + n.
Proof.
  intros Hz. unfold shr_fexp. simpl shr_record_of_loc. apply shr_exact, Hz.
Qed.

Lemma binary_round_aux_below (s : bool) (p : positive) (e : Z) :
  -1074 <= e ->
  e <= fexp B64.prec B64.emax (Zpos (digits2_pos p) + e) ->
  Zpos p * 2 ^ (e + 1074) <= B64.bound ->
  B64.below s (binary_round_aux B64.prec B64.emax s (Zpos p) e loc_Exact).
Proof.
  intros He Hfe Hv.
  pose proof (canonical_exponent p e He Hv) as Hfe50.
  destruct (digits2_pos_bounds p) as [Dlo Dhi].
  destruct (shr_fexp_exact (Zpos p) e) as [[Hq Hex] He']; [lia |].
  simpl Zdigits2 in *.
  set (d := Zpos (digits2_pos p)) in *.
  set (fe := fexp B64.prec B64.emax (d + e)) in *.
  assert (Hfe_eq : fe = Z.max (d + e - 53) (-1074)) by apply fexp_b64.
  replace (Z.max (fe - e) 0) with (fe - e) in * by lia.
  set (n := fe - e) in *.
  assert (Hn : 0 <= n) by (unfold n; lia).
  assert (Hd : 0 < d) by (unfold d; lia).
  assert (Hpn : 0 < 2 ^ n) by (apply pow2_pos, Hn).
  unfold binary_round_aux.
  destruct (shr_fexp B64.prec B64.emax (Zpos p) e loc_Exact) as [mrs' e'].
  simpl in Hq, Hex, He'. subst e'. replace (e + n) with fe by (unfold n; lia).
  destruct (round_nearest_even_bounds mrs') as [[Hr1 Hr2] Hr3].
  set (q := shr_m mrs') in *.
  set (q' := round_nearest_even q (loc_of_shr_record mrs')) in *.
  assert (Hq0 : 0 <= q) by (rewrite Hq; apply Z.div_pos; lia).
  (* the quotient has at most 53 digits *)
  assert (Hq53 : q < 2 ^ 53).
  { rewrite Hq. apply Z.div_lt_upper_bound; [exact Hpn |].
    rewrite Z.mul_comm, <- Z.pow_add_r by lia.
    eapply Z.lt_le_trans; [exact Dhi |]. apply Z.pow_le_mono_r; lia. }
  (* the rounded quotient stays within the B64.bound *)
  assert (HB : q' <= B64.two_pi_m * 2 ^ (-50 - fe)).
  { assert (Hp : Zpos p <= B64.two_pi_m * 2 ^ (-50 - fe) * 2 ^ n).
    { rewrite <- Z.mul_assoc, <- Z.pow_add_r by lia.
      replace (-50 - fe + n) with (-50 - e) by (unfold n; lia).
      apply (Z.mul_le_mono_pos_r _ _ (2 ^ (e + 1074))); [apply pow2_pos; lia |].
      rewrite <- Z.mul_assoc, <- Z.pow_add_r by lia.
      replace (-50 - e + (e + 1074)) with 1024 by lia. exact Hv. }
    set (B := B64.two_pi_m * 2 ^ (-50 - fe)) in *.
    assert (HqB : q <= B).
    { rewrite Hq. rewrite <- (Z_div_mult B (2 ^ n)) by lia.
      apply Z.div_le_mono; [exact Hpn | exact Hp]. }
    destruct (Z.eq_dec q B) as [HqB' | HqB']; [| lia].
    assert (Hmod : Zpos p mod 2 ^ n = 0).
    { pose proof (Z.div_mod (Zpos p) (2 ^ n) ltac:(lia)) as Hdm.
      pose proof (Z.mod_pos_bound (Zpos p) (2 ^ n) Hpn) as Hmb.
      rewrite <- Hq, HqB' in Hdm. lia. }
    destruct (Hex Hmod) as [Hrr Hss]. rewrite (Hr3 Hrr Hss). lia. }
  (* it is canonical *)
  assert (Hcan : fe = -1074 \/ 2 ^ 52 <= q).
  { destruct (Z.eq_dec fe (-1074)) as [H | H]; [left; exact H | right].
    assert (Hnd : n = d - 53) by (unfold n; lia).
    rewrite Hq. apply Z.div_le_lower_bound; [exact Hpn |].
    rewrite Z.mul_comm, <- Z.pow_add_r by lia.
    replace (52 + n) with (d - 1) by lia. exact Dlo. }
  assert (Hval : q' * 2 ^ (fe + 1074) <= B64.bound).
  { eapply Z.le_trans.
    - apply Z.mul_le_mono_nonneg_r;
        [apply Z.lt_le_incl, pow2_pos; lia | exact HB].
    - rewrite <- Z.mul_assoc, <- Z.pow_add_r by lia.
      replace (-50 - fe + (fe + 1074)) with 1024 by lia.
      unfold B64.bound. lia. }
  clearbody q'. clear Hr3.
  unfold shr_fexp. simpl shr_record_of_loc.
  destruct (Z.eq_dec q' 0) as [-> | Hq'0].
  - (* rounded to zero *)
    simpl Zdigits2. rewrite fexp_b64.
    replace (Z.max (0 + fe - 53) (-1074) - fe)
      with (Z.max (-53) (-1074 - fe)) by lia.
    destruct (Z.max (-53) (-1074 - fe)) eqn:Hm; try lia.
    simpl. left. reflexivity.
  - destruct q' as [| pq | pq]; try lia.
    destruct (digits2_pos_bounds pq) as [Qlo Qhi].
    simpl Zdigits2. rewrite fexp_b64.
    set (dq := Zpos (digits2_pos pq)) in *.
    assert (Hdq : 0 < dq) by (unfold dq; lia).
    destruct (Z.eq_dec (Zpos pq) (2 ^ 53)) as [Hc | Hc].
    + (* the carry: one more shift *)
      assert (Hpq : pq = 9007199254740992%positive)
        by (apply Pos2Z.inj; exact Hc).
      subst pq. unfold dq. simpl digits2_pos.
      replace (Z.max (54 + fe - 53) (-1074) - fe) with 1 by lia.
      simpl. replace (fe + 1 <=? 971)%Z with true
        by (symmetry; apply Z.leb_le; lia).
      right. exists 4503599627370496%positive, (fe + 1).
      split; [reflexivity |]. split; [lia |]. split.
      * right. apply Z.leb_le. reflexivity.
      * replace (fe + 1 + 1074) with (1 + (fe + 1074)) by lia.
        rewrite Z.pow_add_r by lia.
        revert Hval. generalize (2 ^ (fe + 1074)). intros w Hval.
        change (2 ^ 1) with 2. lia.
    + (* no carry *)
      assert (Hdq53 : dq <= 53).
      { destruct (Z.le_gt_cases dq 53) as [H | H]; [exact H | exfalso].
        assert (2 ^ 53 <= 2 ^ (dq - 1)) by (apply Z.pow_le_mono_r; lia). lia. }
      replace (Z.max (dq + fe - 53) (-1074) - fe)
        with (Z.max (dq - 53) (-1074 - fe)) by lia.
      destruct (Z.max (dq - 53) (-1074 - fe)) eqn:Hm; try lia.
      * simpl. replace (fe <=? 971)%Z with true
          by (symmetry; apply Z.leb_le; lia).
        right. exists pq, fe.
        split; [reflexivity |]. split; [lia |]. split; [| exact Hval].
        destruct Hcan as [H | H]; [left; exact H | right; lia].
      * simpl. replace (fe <=? 971)%Z with true
          by (symmetry; apply Z.leb_le; lia).
        right. exists pq, fe.
        split; [reflexivity |]. split; [lia |]. split; [| exact Hval].
        destruct Hcan as [H | H]; [left; exact H | right; lia].
Qed.

Lemma shl_align_fst (m : positive) (e e' : Z) :
  e' <= e ->
  Zpos (fst (shl_align m e e')) = Zpos m * 2 ^ (e - e') /\
  snd (shl_align m e e') = e'.
Proof.
  intros Hle. unfold shl_align.
  destruct (e' - e) as [| d | d] eqn:Hd; try lia.
  - cbn [fst snd]. replace (e - e') with 0 by lia. change (2 ^ 0) with 1.
    split; lia.
  - cbn [fst snd]. change (Pos.iter xO m d) with (shift_pos d m).
    rewrite shift_pos_correct. change (Zpower_pos 2 d) with (2 ^ Zpos d).
    replace (e - e') with (Zpos d) by lia. split; [lia | reflexivity].
Qed.

Lemma binary_round_below (s : bool) (p : positive) (e : Z) :
  -1074 <= e ->
  Zpos p * 2 ^ (e + 1074) <= B64.bound ->
  B64.below s (binary_round B64.prec B64.emax s p e).
Proof.
  intros He Hv. unfold binary_round.
  destruct (digits2_pos_bounds p) as [Dlo Dhi].
  set (d := Zpos (digits2_pos p)) in *.
  assert (Hd : 0 < d) by (unfold d; lia).
  set (fe := fexp B64.prec B64.emax (d + e)).
  assert (Hfe : fe = Z.max (d + e - 53) (-1074)) by apply fexp_b64.
  destruct (Z.le_gt_cases e fe) as [Hc | Hc].
  - (* nothing to shift *)
    assert (Hs : shl_align p e fe = (p, e)).
    { unfold shl_align. destruct (fe - e) eqn:H; try lia; reflexivity. }
    rewrite Hs. apply binary_round_aux_below; [exact He | exact Hc | exact Hv].
  - destruct (shl_align_fst p e fe) as [Hm Hx]; [lia |].
    destruct (shl_align p e fe) as [p' e']. cbn [fst snd] in Hm, Hx. subst e'.
    assert (Hk : 0 < e - fe) by lia.
    assert (Hdig : Zpos (digits2_pos p') = d + (e - fe)).
    { apply digits2_pos_unique. rewrite Hm. split.
      - replace (d + (e - fe) - 1) with ((d - 1) + (e - fe)) by lia.
        rewrite Z.pow_add_r by lia.
        apply Z.mul_le_mono_nonneg_r;
          [apply Z.lt_le_incl, pow2_pos; lia | exact Dlo].
      - rewrite Z.pow_add_r by lia.
        apply Z.mul_lt_mono_pos_r; [apply pow2_pos; lia | exact Dhi]. }
    apply binary_round_aux_below.
    + lia.
    + rewrite Hdig. replace (d + (e - fe) + fe) with (d + e) by lia.
      fold fe. lia.
    + rewrite Hm, <- Z.mul_assoc, <- Z.pow_add_r by lia.
      replace (e - fe + (fe + 1074)) with (e + 1074) by lia. exact Hv.
Qed.

Lemma leb_same_exponent (m n : positive) (e : Z) :
  Zpos m <= Zpos n ->
  SFleb (S754_finite false m e) (S754_finite false n e) = true.
Proof.
  intros H. unfold SFleb, SFcompare. rewrite Z.compare_refl.
  rewrite Pos.compare_cont_spec. unfold Pos.switch_Eq.
  unfold Z.le in H. simpl in H.
  destruct (m ?= n)%positive; try reflexivity. contradiction.
Qed.

Lemma leb_lower_exponent (m n : positive) (e e' : Z) :
  e < e' ->
  SFleb (S754_finite false m e) (S754_finite false n e') = true.
Proof.
  intros H. unfold SFleb, SFcompare.
  apply Z.compare_lt_iff in H. rewrite H. reflexivity.
Qed.

(** Within the B64.bound means between [0.0] and [2.0 * np.pi]. *)
Lemma below_leb (x : spec_float) :
  B64.below false x ->
  SFleb (S754_zero false) x = true /\ SFleb x B64.two_pi = true.
Proof.
  intros [-> | (m & e & -> & He & Hcan & Hv)]; [split; reflexivity |].
  split; [reflexivity |]. unfold B64.two_pi.
  destruct (Z.lt_trichotomy e (-50)) as [Hlt | [Heq | Hgt]].
  - apply leb_lower_exponent, Hlt.
  - subst e. apply leb_same_exponent.
    apply (Z.mul_le_mono_pos_r _ _ (2 ^ 1024)); [apply pow2_pos; lia |].
    exact Hv.
  - exfalso. destruct Hcan as [Hcan | Hcan]; [lia |].
    assert (H1 : 2 ^ 52 * 2 ^ (e + 1074) <= B64.bound).
    { eapply Z.le_trans; [| exact Hv].
      apply Z.mul_le_mono_nonneg_r;
        [apply Z.lt_le_incl, pow2_pos; lia | exact Hcan]. }
    rewrite <- Z.pow_add_r in H1 by lia.
    assert (H2 : 2 ^ 1077 <= 2 ^ (52 + (e + 1074)))
      by (apply Z.pow_le_mono_r; lia).
    pose proof bound_lt. lia.
Qed.

Lemma scaled_bound (z e : Z) :
  -1074 <= e -> e <= -50 ->
  z <= B64.two_pi_m * 2 ^ (-50 - e) ->
  z * 2 ^ (e + 1074) <= B64.bound.
Proof.
  intros He He' Hz. unfold B64.bound.
  replace 1024 with ((-50 - e) + (e + 1074)) by lia.
  rewrite (Z.pow_add_r 2 (-50 - e) (e + 1074)), Z.mul_assoc by lia.
  apply Z.mul_le_mono_nonneg_r;
    [apply Z.lt_le_incl, pow2_pos; lia | exact Hz].
Qed.

Lemma binary_normalize_below (s : bool) (z e : Z) :
  -1074 <= e -> e <= -50 ->
  0 <= z <= B64.two_pi_m * 2 ^ (-50 - e) ->
  B64.below s (binary_normalize B64.prec B64.emax (cond_Zopp s z) e s).
Proof.
  intros He He' [Hz0 Hz]. destruct z as [| p | p]; try lia.
  - destruct s; left; reflexivity.
  - assert (Hv := scaled_bound (Zpos p) e He He' Hz).
    destruct s; cbn [cond_Zopp Z.opp binary_normalize];
      apply binary_round_below; assumption.
Qed.

Lemma fmod_below (sx : bool) (mx : positive) (ex : Z) :
  -1074 <= ex ->
  B64.below sx (B64.fmod (S754_finite sx mx ex) B64.two_pi).
Proof.
  intros Hex. unfold B64.fmod, B64.two_pi.
  set (ez := Z.min ex (-50)).
  destruct (shl_align_fst mx ex ez) as [HX _]; [unfold ez; lia |].
  destruct (shl_align_fst 7074237752028440 (-50) ez) as [HY _];
    [unfold ez; lia |].
  rewrite HX, HY.
  set (X := Zpos mx * 2 ^ (ex - ez)).
  set (Y := Zpos 7074237752028440 * 2 ^ (-50 - ez)).
  assert (HYpos : 0 < Y)
    by (unfold Y; apply Z.mul_pos_pos; [lia | apply pow2_pos; unfold ez; lia]).
  assert (HXpos : 0 <= X)
    by (unfold X; apply Z.mul_nonneg_nonneg;
        [lia | apply Z.lt_le_incl, pow2_pos; unfold ez; lia]).
  pose proof (Z.rem_bound_pos X Y HXpos HYpos) as Hr.
  apply binary_normalize_below; [unfold ez; lia | unfold ez; lia |].
  fold Y. change B64.two_pi_m with (Zpos 7074237752028440). fold Y. lia.
Qed.

Lemma add_below (m : positive) (e : Z) :
  -1074 <= e ->
  Zpos m * 2 ^ (e + 1074) <= B64.bound ->
  B64.below false (B64.add (S754_finite true m e) B64.two_pi).
Proof.
  intros He Hv. unfold B64.add, SFadd, B64.two_pi.
  set (ez := Z.min e (-50)).
  destruct (shl_align_fst m e ez) as [HA _]; [unfold ez; lia |].
  destruct (shl_align_fst 7074237752028440 (-50) ez) as [HB _];
    [unfold ez; lia |].
  rewrite HA, HB. cbn [cond_Zopp].
  set (a := Zpos m * 2 ^ (e - ez)).
  set (b := Zpos 7074237752028440 * 2 ^ (-50 - ez)).
  assert (Ha0 : 0 <= a)
    by (unfold a; apply Z.mul_nonneg_nonneg;
        [lia | apply Z.lt_le_incl, pow2_pos; unfold ez; lia]).
  assert (Hab : a <= b).
  { apply (Z.mul_le_mono_pos_r _ _ (2 ^ (ez + 1074)));
      [apply pow2_pos; unfold ez; lia |].
    unfold a, b. rewrite <- !Z.mul_assoc, <- !Z.pow_add_r by (unfold ez; lia).
    replace (e - ez + (ez + 1074)) with (e + 1074) by lia.
    replace (-50 - ez + (ez + 1074)) with 1024 by lia. exact Hv. }
  change (B64.below false
            (binary_normalize B64.prec B64.emax
               (cond_Zopp false (- a + b)) ez false)).
  apply binary_normalize_below; [unfold ez; lia | unfold ez; lia |].
  change B64.two_pi_m with (Zpos 7074237752028440). fold b. lia.
Qed.

Theorem np_mod_two_pi_range (x : spec_float) :
  B64.in_range x = true ->
  B64.leb B64.zero (B64.np_mod x B64.two_pi) = true /\
  B64.leb (B64.np_mod x B64.two_pi) B64.two_pi = true.
Proof.
  intros Hx.
  assert (Hzero : forall s,
            B64.fmod x B64.two_pi = S754_zero s ->
            B64.leb B64.zero (B64.np_mod x B64.two_pi) = true /\
            B64.leb (B64.np_mod x B64.two_pi) B64.two_pi = true).
  { intros s Hm. unfold B64.np_mod. rewrite Hm. split; reflexivity. }
  destruct x as [s | s | | sx mx ex]; try discriminate.
  - apply (Hzero s). reflexivity.
  - simpl in Hx. apply Z.leb_le in Hx.
    destruct (fmod_below sx mx ex Hx) as [Hm | (m & e & Hm & He & Hcan & Hv)].
    + apply (Hzero sx), Hm.
    + unfold B64.np_mod. rewrite Hm.
      change (B64.eqb B64.two_pi B64.zero) with false.
      change (B64.ltb B64.two_pi B64.zero) with false.
      destruct sx.
      * change (B64.eqb (S754_finite true m e) B64.zero) with false.
        change (B64.ltb (S754_finite true m e) B64.zero) with true.
        cbn [Bool.eqb negb]. apply below_leb, add_below; assumption.
      * change (B64.eqb (S754_finite false m e) B64.zero) with false.
        change (B64.ltb (S754_finite false m e) B64.zero) with false.
        cbn [Bool.eqb negb]. apply below_leb. right. exists m, e. auto.
Qed.

Lemma shr_fexp_exponent (m e : Z) (l : location) :
  -1074 <= snd (shr_fexp B64.prec B64.emax m e l).
Proof.
  unfold shr_fexp, shr. rewrite fexp_b64.
  destruct (Z.max (Zdigits2 m + e - 53) (-1074) - e) eqn:H; cbn [snd]; lia.
Qed.

Lemma binary_round_aux_in_range (s : bool) (m e : Z) (l : location) :
  B64.is_finite (binary_round_aux B64.prec B64.emax s m e l) = true ->
  B64.in_range (binary_round_aux B64.prec B64.emax s m e l) = true.
Proof.
  unfold binary_round_aux.
  destruct (shr_fexp B64.prec B64.emax m e l) as [mrs' e'].
  pose proof (shr_fexp_exponent
                (round_nearest_even (shr_m mrs') (loc_of_shr_record mrs'))
                e' loc_Exact) as He.
  destruct (shr_fexp B64.prec B64.emax
              (round_nearest_even (shr_m mrs') (loc_of_shr_record mrs'))
              e' loc_Exact) as [mrs'' e''].
  cbn [snd] in He.
  destruct (shr_m mrs''); [reflexivity | | discriminate].
  destruct (e'' <=? B64.emax - B64.prec)%Z; [| discriminate].
  intros _. apply Z.leb_le, He.
Qed.

Lemma div_in_range (a b : spec_float) :
  B64.is_finite (B64.div a b) = true -> B64.in_range (B64.div a b) = true.
Proof.
  unfold B64.div, SFdiv.
  destruct a as [sa | sa | | sa ma ea], b as [sb | sb | | sb mb eb];
    try discriminate; try reflexivity.
  destruct (SFdiv_core_binary B64.prec B64.emax (Zpos ma) ea (Zpos mb) eb)
    as [[mz ez] lz].
  apply binary_round_aux_in_range.
Qed.

Lemma two_pi_eq : B64.mul (B64.of_int 2) B64.pi = B64.two_pi.
Proof. reflexivity. Qed.

(** *** The sign of a product and of a quotient *)

(** Rounding a non-negative mantissa yields a zero, a finite number or an
    infinity of the sign it was given, never a NaN. *)
Lemma shr_1_nonneg (mrs : shr_record) :
  0 <= shr_m mrs -> 0 <= shr_m (shr_1 mrs).
Proof.
  destruct mrs as [m r s]. cbn [shr_m]. intros Hm.
  destruct (shr_1_m m r s Hm) as (-> & _). apply Z.div_pos; lia.
Qed.

Lemma shr_nonneg (mrs : shr_record) (e n : Z) :
  0 <= shr_m mrs -> 0 <= shr_m (fst (shr mrs e n)).
Proof.
  intros Hm. destruct n as [| p | p]; cbn [shr fst]; try exact Hm.
  apply (iter_pos_inv shr_1 (fun _ x => 0 <= shr_m x)) with (k := 0);
    [| lia | exact Hm].
  intros k x _. apply shr_1_nonneg.
Qed.

Lemma binary_round_aux_signbit (s : bool) (m e : Z) (l : location) :
  0 <= m ->
  B64.signbit (binary_round_aux B64.prec B64.emax s m e l) = s /\
  B64.is_nan (binary_round_aux B64.prec B64.emax s m e l) = false.
Proof.
  intros Hm. unfold binary_round_aux.
  assert (H1 : 0 <= shr_m (fst (shr_fexp B64.prec B64.emax m e l))).
  { unfold shr_fexp. apply shr_nonneg. destruct l as [| []]; exact Hm. }
  destruct (shr_fexp B64.prec B64.emax m e l) as [mrs' e']. cbn [fst] in H1.
  destruct (round_nearest_even_bounds mrs') as [[Hr _] _].
  assert (H2 : 0 <= shr_m (fst (shr_fexp B64.prec B64.emax
                 (round_nearest_even (shr_m mrs') (loc_of_shr_record mrs'))
                 e' loc_Exact))).
  { unfold shr_fexp. apply shr_nonneg. cbn. lia. }
  destruct (shr_fexp B64.prec B64.emax
              (round_nearest_even (shr_m mrs') (loc_of_shr_record mrs'))
              e' loc_Exact) as [mrs'' e''].
  cbn [fst] in H2.
  destruct (shr_m mrs'') as [| q | q]; [split; reflexivity | | lia].
  destruct (e'' <=? B64.emax - B64.prec)%Z; split; reflexivity.
Qed.

Lemma of_int_negative (p : positive) :
  Zpos p < 2 ^ 53 ->
  exists m e, B64.of_int (Zneg p) = S754_finite true m e.
Proof.
  intros Hp. unfold B64.of_int. cbn [binary_normalize]. unfold binary_round.
  destruct (digits2_pos_bounds p) as [Dlo Dhi].
  set (d := Zpos (digits2_pos p)) in *.
  assert (Hd : 0 < d) by (unfold d; lia).
  assert (Hd53 : d <= 53).
  { destruct (Z.le_gt_cases d 53) as [H | H]; [exact H |].
    assert (2 ^ 53 <= 2 ^ (d - 1)) by (apply Z.pow_le_mono_r; lia). lia. }
  rewrite fexp_b64. replace (Z.max (d + 0 - 53) (-1074)) with (d - 53) by lia.
  destruct (shl_align_fst p 0 (d - 53)) as [Hm Hx]; [lia |].
  destruct (shl_align p 0 (d - 53)) as [mz ez]. cbn [fst snd] in Hm, Hx.
  subst ez.
  assert (Hdig : Zpos (digits2_pos mz) = 53).
  { apply digits2_pos_unique. rewrite Hm. split.
    - replace (53 - 1) with ((d - 1) + (0 - (d - 53))) by lia.
      rewrite Z.pow_add_r by lia.
      apply Z.mul_le_mono_nonneg_r;
        [apply Z.lt_le_incl, pow2_pos; lia | exact Dlo].
    - replace 53 with (d + (0 - (d - 53))) at 2 by lia.
      rewrite Z.pow_add_r by lia.
      apply Z.mul_lt_mono_pos_r; [apply pow2_pos; lia | exact Dhi]. }
  unfold binary_round_aux.
  assert (Hshift : forall l, shr_fexp B64.prec B64.emax (Zpos mz) (d - 53) l =
                   (shr_record_of_loc (Zpos mz) l, d - 53)).
  { intros l. unfold shr_fexp. cbn [Zdigits2]. rewrite Hdig, fexp_b64.
    replace (Z.max (53 + (d - 53) - 53) (-1074) - (d - 53)) with 0 by lia.
    reflexivity. }
  rewrite Hshift. cbn [shr_record_of_loc shr_m loc_of_shr_record
                       round_nearest_even].
  rewrite Hshift. cbn [shr_record_of_loc shr_m].
  replace (d - 53 <=? B64.emax - B64.prec)%Z with true.
  - eexists _, _. reflexivity.
  - symmetry. apply Z.leb_le. unfold B64.emax, B64.prec. lia.
Qed.

Lemma mul_signbit (x y : B64.t) :
  B64.is_nan x = false -> B64.is_nan y = false ->
  B64.is_finite x = true \/ B64.eqb y B64.zero = false ->
  B64.is_finite y = true \/ B64.eqb x B64.zero = false ->
  B64.signbit (B64.mul x y) = xorb (B64.signbit x) (B64.signbit y) /\
  B64.is_nan (B64.mul x y) = false.
Proof.
  destruct x as [sx | sx | | sx mx ex], y as [sy | sy | | sy my ey];
    cbn; intros Hx Hy H1 H2; try discriminate;
    try (split; reflexivity);
    try (destruct H1; discriminate); try (destruct H2; discriminate).
  apply binary_round_aux_signbit. lia.
Qed.

Lemma div_core_nonneg (m1 m2 : positive) (e1 e2 : Z) :
  0 <= fst (fst (SFdiv_core_binary B64.prec B64.emax
                   (Zpos m1) e1 (Zpos m2) e2)).
Proof.
  unfold SFdiv_core_binary.
  set (s := e1 - e2 - _).
  set (m' := match s with Z0 => Zpos m1 | Zpos _ => Z.shiftl (Zpos m1) s
             | Zneg _ => 0 end).
  assert (Hm' : 0 <= m').
  { unfold m'. destruct s; try lia. apply Z.shiftl_nonneg. lia. }
  pose proof (Z_div_mod m' (Zpos m2) ltac:(lia)) as Hdm.
  destruct (Z.div_eucl m' (Zpos m2)) as [q r]. cbn [fst].
  destruct Hdm as [Heq Hr]. nia.
Qed.

Lemma div_signbit (x : B64.t) (my : positive) (ey : Z) :
  B64.is_nan x = false ->
  B64.signbit (B64.div x (S754_finite false my ey)) = B64.signbit x /\
  B64.is_nan (B64.div x (S754_finite false my ey)) = false.
Proof.
  destruct x as [sx | sx | | sx mx ex]; intros Hx; try discriminate;
    unfold B64.div, SFdiv.
  - destruct sx; split; reflexivity.
  - destruct sx; split; reflexivity.
  - pose proof (div_core_nonneg mx my ex ey) as Hq.
    destruct (SFdiv_core_binary B64.prec B64.emax (Zpos mx) ex (Zpos my) ey)
      as [[mz ez] lz].
    cbn [fst] in Hq. cbn [B64.signbit]. rewrite <- (xorb_false_r sx) at 2.
    apply binary_round_aux_signbit, Hq.
Qed.

Lemma distance_signbit (radius : B64.t) (dN : Z) :
  B64.is_nan radius = false -> B64.signbit radius = false ->
  - 2 ^ 53 < dN < 0 ->
  B64.signbit (distance (A := binary64) radius dN) = true /\
  B64.is_nan (distance (A := binary64) radius dN) = false.
Proof.
  intros Hn Hs [Hlo Hhi].
  change (distance (A := binary64) radius dN)
    with (B64.div (B64.mul (B64.mul B64.two_pi radius) (B64.of_int dN))
                  (S754_finite false 4749890231992320 (-45))).
  destruct dN as [| p | p]; try lia.
  destruct (of_int_negative p) as (m & e & ->); [lia |].
  destruct (mul_signbit B64.two_pi radius eq_refl Hn
              (or_introl eq_refl) (or_intror eq_refl)) as [S1 N1].
  rewrite Hs in S1.
  destruct (mul_signbit (B64.mul B64.two_pi radius) (S754_finite true m e)
              N1 eq_refl (or_intror eq_refl) (or_introl eq_refl)) as [S2 N2].
  rewrite S1 in S2.
  destruct (div_signbit _ 4749890231992320 (-45) N2) as [S3 N3].
  rewrite S2 in S3. split; assumption.
Qed.

(** ** Distances and heading: the claims *)

(** C3: the first tick processed for a wheel, whatever its value, seeds the
    wheel's [total_ticks] and [initial_ticks] with that value, raises its
    [initialised_ticks] flag and adds the delta of zero ticks; in binary64
    (with [2 * np.pi * radius] finite) that delta compares equal to [0.0] and
    the distance of the wheel stays [0.0], and so it does in exact
    arithmetic. *)
Theorem first_tick_contributes_zero :
  (forall (baseline radius : @num binary64) (evs : list event)
          (msg : WheelEncoderStamped.t),
     B64.is_finite (B64.mul (B64.mul (B64.of_int 2) B64.pi) radius) = true ->
     (initialised_ticks_left (after baseline radius evs) = false ->
      let s' := snd (cb_encoder_to_transform baseline radius msg "left"
                       (after baseline radius evs)) in
      seeded radius msg (wheel_distance_left (after baseline radius evs))
        (initialised_ticks_left s', total_ticks_left s', initial_ticks_left s',
         wheel_distance_left s') /\
      B64.eqb (distance radius 0) B64.zero = true /\
      wheel_distance_left s' = B64.zero) /\
     (initialised_ticks_right (after baseline radius evs) = false ->
      let s' := snd (cb_encoder_to_transform baseline radius msg "right"
                       (after baseline radius evs)) in
      seeded radius msg (wheel_distance_right (after baseline radius evs))
        (initialised_ticks_right s', total_ticks_right s',
         initial_ticks_right s', wheel_distance_right s') /\
      B64.eqb (distance radius 0) B64.zero = true /\
      wheel_distance_right s' = B64.zero)) /\
  (forall (baseline radius : @num exact) (evs : list event)
          (msg : WheelEncoderStamped.t),
     (initialised_ticks_left (after baseline radius evs) = false ->
      let s' := snd (cb_encoder_to_transform baseline radius msg "left"
                       (after baseline radius evs)) in
      seeded radius msg (wheel_distance_left (after baseline radius evs))
        (initialised_ticks_left s', total_ticks_left s', initial_ticks_left s',
         wheel_distance_left s') /\
      distance radius 0 = 0%R /\
      wheel_distance_left s' = 0%R) /\
     (initialised_ticks_right (after baseline radius evs) = false ->
      let s' := snd (cb_encoder_to_transform baseline radius msg "right"
                       (after baseline radius evs)) in
      seeded radius msg (wheel_distance_right (after baseline radius evs))
        (initialised_ticks_right s', total_ticks_right s',
         initial_ticks_right s', wheel_distance_right s') /\
      distance radius 0 = 0%R /\
      wheel_distance_right s' = 0%R)).
Proof.
  split.
  - intros baseline radius evs msg Hfin.
    destruct (b64_distance_zero radius Hfin) as (sg & Hd).
    split; intros Hi; cbv zeta.
    + split; [apply first_tick_left, Hi |].
      split; [rewrite Hd; apply b64_zero_eqb |].
      rewrite first_tick_left_distance by exact Hi.
      rewrite (fresh_left baseline radius evs Hi), Hd. apply b64_add_zero.
    + split; [apply first_tick_right, Hi |].
      split; [rewrite Hd; apply b64_zero_eqb |].
      rewrite first_tick_right_distance by exact Hi.
      rewrite (fresh_right baseline radius evs Hi), Hd. apply b64_add_zero.
  - intros baseline radius evs msg.
    assert (Hd : distance (A := exact) radius 0 = 0%R)
      by (rewrite exact_distance; lra).
    split; intros Hi; cbv zeta.
    + split; [apply first_tick_left, Hi |]. split; [exact Hd |].
      rewrite first_tick_left_distance by exact Hi.
      rewrite (fresh_left baseline radius evs Hi), Hd. simpl. lra.
    + split; [apply first_tick_right, Hi |]. split; [exact Hd |].
      rewrite first_tick_right_distance by exact Hi.
      rewrite (fresh_right baseline radius evs Hi), Hd. simpl. lra.
Qed.

(** C1 (amended): a tick tagged "left" or "right", with a non-zero
    baseline, is processed to the end and leaves in [theta] the value of
    [np.mod ((wheel_distance_left - wheel_distance_right) / baseline,
    2 * np.pi)] on the distances it has just updated; in exact arithmetic
    that value lies in [[0, 2 * PI)]; in binary64, when the ratio is finite,
    it lies between [0.0] and [2.0 * np.pi], both included. *)
Theorem heading_after_tick :
  (forall (A : Arith) (baseline radius : num) (msg : WheelEncoderStamped.t)
          (wheel : string) (s : Node),
     wheel = "left" \/ wheel = "right" ->
     eq_zero baseline = false ->
     fst (cb_encoder_to_transform baseline radius msg wheel s) = Return tt /\
     let s' := snd (cb_encoder_to_transform baseline radius msg wheel s) in
     theta s' =
     np_mod (div (sub (wheel_distance_left s') (wheel_distance_right s'))
                 baseline)
            (mul (of_int 2) np_pi)) /\
  (forall (baseline radius : @num exact) (msg : WheelEncoderStamped.t)
          (wheel : string) (s : Node),
     wheel = "left" \/ wheel = "right" ->
     baseline <> 0%R ->
     let s' := snd (cb_encoder_to_transform baseline radius msg wheel s) in
     (0 <= theta s' < 2 * PI)%R) /\
  (forall (baseline radius : @num binary64) (msg : WheelEncoderStamped.t)
          (wheel : string) (s : Node),
     wheel = "left" \/ wheel = "right" ->
     eq_zero baseline = false ->
     let s' := snd (cb_encoder_to_transform baseline radius msg wheel s) in
     B64.is_finite
       (div (sub (wheel_distance_left s') (wheel_distance_right s')) baseline)
     = true ->
     B64.leb B64.zero (theta s') = true /\
     B64.leb (theta s') (@mul binary64 (of_int 2) np_pi) = true).
Proof.
  split; [| split].
  - intros A baseline radius msg wheel s Hw Hb.
    pose proof (cb_succeeds baseline radius msg wheel s Hw Hb) as Hok.
    split; [exact Hok |]. cbv zeta.
    rewrite (cb_returns_theta baseline radius msg wheel s Hok). reflexivity.
  - intros baseline radius msg wheel s Hw Hb. cbv zeta.
    apply exact_eq_zero in Hb.
    pose proof (cb_succeeds baseline radius msg wheel s Hw Hb) as Hok.
    rewrite (cb_returns_theta baseline radius msg wheel s Hok).
    apply exact_heading_range.
  - intros baseline radius msg wheel s Hw Hb. cbv zeta. intros Hfin.
    pose proof (cb_succeeds baseline radius msg wheel s Hw Hb) as Hok.
    rewrite (cb_returns_theta baseline radius msg wheel s Hok).
    unfold heading.
    change (@mul binary64 (of_int 2) np_pi) with B64.two_pi.
    apply np_mod_two_pi_range, div_in_range, Hfin.
Qed.

(** C7 (amended): after any trace, [theta] is
    [np.mod ((wheel_distance_left - wheel_distance_right) / baseline,
    2 * np.pi)], the ratio first and [2 * np.pi] second, as soon as
    [encoder_received] is true, and is still the [0.0] of [__init__] while it
    is false; a callback that raises and the publish loop leave [theta] as it
    was. *)
Theorem heading_is_derived (A : Arith) (baseline radius : num) :
  (forall evs : list event,
     let s := after baseline radius evs in
     (encoder_received s = true ->
      theta s =
      np_mod (div (sub (wheel_distance_left s) (wheel_distance_right s))
                  baseline)
             (mul (of_int 2) np_pi)) /\
     (encoder_received s = false -> theta s = of_int 0)) /\
  (forall (msg : WheelEncoderStamped.t) (wheel : string) (s : Node),
     fst (cb_encoder_to_transform baseline radius msg wheel s) <> Return tt ->
     theta (snd (cb_encoder_to_transform baseline radius msg wheel s)) =
     theta s) /\
  (forall (n : nat) (s : Node), theta (snd (run n s)) = theta s).
Proof.
  split; [| split].
  - intros evs. cbv zeta.
    destruct (consistent_after baseline radius evs) as (Hup & Hdown & _).
    split; intros H.
    + apply Hup, H.
    + apply Hdown, H.
  - apply cb_raises_theta.
  - intros n s. rewrite run_spec.
    destruct (encoder_received s); [destruct (transform_msg s) |];
      try reflexivity; destruct n; reflexivity.
Qed.

(** C2 (amended): after any trace the distance of each wheel is the sum,
    added up in the order of arrival, of the deltas
    [2 * np.pi * radius * (t_i - t_(i-1)) / 135] of the readings delivered to
    that wheel, the first reading being compared with itself; in exact
    arithmetic that sum is [2 * PI * radius / 135 * (t_N - t_0)], and a
    reading below the previous one adds a negative delta (for a positive
    radius); in binary64, for a radius that is not a NaN and has its sign
    bit clear and a tick difference between [- 2 ^ 53] and [0], which every
    difference of two 32-bit readings is, the delta has its sign bit set and
    is not a NaN; with a non-zero baseline no tick value makes the callback
    raise. *)
Theorem wheel_distance_accumulates :
  (forall (A : Arith) (baseline radius : num) (evs : list event),
     wheel_distance_left (after baseline radius evs) =
     accumulated radius (readings "left" evs) /\
     wheel_distance_right (after baseline radius evs) =
     accumulated radius (readings "right" evs)) /\
  (forall (baseline radius : @num exact) (evs : list event) (t0 : Z)
          (ts : list Z),
     (readings "left" evs = t0 :: ts ->
      wheel_distance_left (after baseline radius evs) =
      (2 * PI * radius / 135 * IZR (last ts t0 - t0))%R) /\
     (readings "right" evs = t0 :: ts ->
      wheel_distance_right (after baseline radius evs) =
      (2 * PI * radius / 135 * IZR (last ts t0 - t0))%R)) /\
  (forall (radius : @num exact) (dN : Z),
     (0 < radius)%R -> dN < 0 -> (distance radius dN < 0)%R) /\
  (forall (radius : @num binary64) (dN : Z),
     B64.is_nan radius = false -> B64.signbit radius = false ->
     - 2 ^ 53 < dN < 0 ->
     B64.signbit (distance radius dN) = true /\
     B64.is_nan (distance radius dN) = false) /\
  (forall (A : Arith) (baseline radius : num) (msg : WheelEncoderStamped.t)
          (wheel : string) (s : Node),
     wheel = "left" \/ wheel = "right" ->
     eq_zero baseline = false ->
     fst (cb_encoder_to_transform baseline radius msg wheel s) = Return tt).
Proof.
  split; [| split; [| split; [| split]]].
  - intros A baseline radius evs. split.
    + apply wheel_distance_left_after.
    + apply wheel_distance_right_after.
  - intros baseline radius evs t0 ts. split; intros Hts.
    + rewrite wheel_distance_left_after, Hts. apply exact_accumulated.
    + rewrite wheel_distance_right_after, Hts. apply exact_accumulated.
  - exact exact_distance_negative.
  - exact distance_signbit.
  - intros A. exact cb_succeeds.
Qed.

(** C1, as stated, fails in binary64.  Both wheels start at reading 0 and
    end at reading 5, the right one by way of reading 1.  The last tick is
    processed to the end, both distances are finite and the baseline is
    non-zero, but the right distance is one unit in the last place above the
    left one: the ratio is a tiny negative number, and [np.mod] returns
    [2 * np.pi] itself, which is not below [2 * np.pi]. *)
Lemma heading_reaches_two_pi :
  let s := Scenario.after
             [Scenario.left 0; Scenario.left 5;
              Scenario.right 0; Scenario.right 1] in
  let r := Scenario.cb (Scenario.tick 5) "right" s in
  fst r = Return tt /\
  eq_zero Scenario.baseline = false /\
  B64.is_finite (wheel_distance_left (snd r)) = true /\
  B64.is_finite (wheel_distance_right (snd r)) = true /\
  B64.ltb
    (div (sub (wheel_distance_left (snd r)) (wheel_distance_right (snd r)))
         Scenario.baseline) B64.zero = true /\
  theta (snd r) = Scenario.two_pi /\
  B64.ltb (theta (snd r)) Scenario.two_pi = false.
Proof. vm_compute. repeat split. Qed.

(** C2, as stated, fails in binary64.  The readings 0, 5 and the readings
    0, 1, 5 of the left wheel have the same first and last value and leave
    different distances, so no expression in [t_N - t_0] gives both; the
    first differs from [2 * np.pi * radius / 135 * (5 - 0)] and the second
    from [2 * np.pi * radius * (5 - 0) / 135]. *)
Lemma wheel_distance_depends_on_path :
  let direct := Scenario.after [Scenario.left 0; Scenario.left 5] in
  let stepped :=
    Scenario.after [Scenario.left 0; Scenario.left 1; Scenario.left 5] in
  B64.eqb (wheel_distance_left stepped) (wheel_distance_left direct) = false /\
  B64.eqb (wheel_distance_left direct)
          (mul (div (mul (mul (of_int 2) np_pi) Scenario.radius)
                    (of_int encoder_resolution))
               (of_int (5 - 0))) = false /\
  B64.eqb (wheel_distance_left stepped)
          (div (mul (mul (mul (of_int 2) np_pi) Scenario.radius)
                    (of_int (5 - 0)))
               (of_int encoder_resolution)) = false.
Proof. vm_compute. repeat split. Qed.

(** C7, as stated, fails.  After the left wheel has gone from reading 0 to
    reading 135 (one revolution), [encoder_received] is true and [theta] is
    the ratio itself, about 1.2566, whereas [np.mod] with [2 * np.pi] first
    and the ratio second is [0.0]. *)
Lemma heading_is_not_mod_of_two_pi_by_ratio :
  let s := Scenario.after [Scenario.left 0; Scenario.left 135] in
  let ratio :=
    div (sub (wheel_distance_left s) (wheel_distance_right s))
        Scenario.baseline in
  encoder_received s = true /\
  theta s = ratio /\
  np_mod Scenario.two_pi ratio = B64.zero /\
  B64.eqb (theta s) (np_mod Scenario.two_pi ratio) = false.
Proof. vm_compute. repeat split. Qed.

(** ** The theorems at the concrete vehicle *)

(** The left wheel's second tick, reading 135 after reading 0. *)
Lemma heading_after_tick_witness :
  ("left" = "left" \/ "left" = "right") /\
  eq_zero Scenario.baseline = false /\
  fst (Scenario.cb (Scenario.tick 135) "left"
         (Scenario.after [Scenario.left 0])) = Return tt /\
  let s' := snd (Scenario.cb (Scenario.tick 135) "left"
                   (Scenario.after [Scenario.left 0])) in
  theta s' =
  np_mod (div (sub (wheel_distance_left s') (wheel_distance_right s'))
              Scenario.baseline)
         (mul (of_int 2) np_pi).
Proof.
  assert (Hw : "left" = "left" \/ "left" = "right") by (left; reflexivity).
  assert (Hb : eq_zero Scenario.baseline = false) by reflexivity.
  exact (conj Hw (conj Hb
    (proj1 heading_after_tick binary64 Scenario.baseline Scenario.radius
       (Scenario.tick 135) "left" (Scenario.after [Scenario.left 0]) Hw Hb))).
Defined.

(** Exact arithmetic on the readings 0, 1, 5 of the left wheel, with a unit
    baseline and radius; in binary64, the delta of four ticks backwards with
    the radius of the scenario. *)
Lemma wheel_distance_accumulates_witness :
  readings "left" [Scenario.left 0; Scenario.left 1; Scenario.left 5]
  = [0; 1; 5] /\
  wheel_distance_left
    (after (A := exact) 1%R 1%R
       [Scenario.left 0; Scenario.left 1; Scenario.left 5]) =
  (2 * PI * 1 / 135 * IZR (last [1; 5] 0 - 0)%Z)%R /\
  B64.is_nan Scenario.radius = false /\
  B64.signbit Scenario.radius = false /\
  - 2 ^ 53 < -4 < 0 /\
  B64.signbit (distance Scenario.radius (-4)) = true /\
  B64.is_nan (distance Scenario.radius (-4)) = false.
Proof.
  assert (Hr : readings "left"
                 [Scenario.left 0; Scenario.left 1; Scenario.left 5]
               = [0; 1; 5]) by reflexivity.
  assert (Hn : B64.is_nan Scenario.radius = false) by reflexivity.
  assert (Hs : B64.signbit Scenario.radius = false) by reflexivity.
  assert (Hd : - 2 ^ 53 < -4 < 0) by lia.
  exact (conj Hr (conj
    (proj1 (proj1 (proj2 wheel_distance_accumulates) 1%R 1%R
              [Scenario.left 0; Scenario.left 1; Scenario.left 5] 0 [1; 5])
       Hr)
    (conj Hn (conj Hs (conj Hd
       (proj1 (proj2 (proj2 (proj2 wheel_distance_accumulates)))
          Scenario.radius (-4) Hn Hs Hd)))))).
Defined.

(** The very first tick of the left wheel, with reading 7. *)
Lemma first_tick_contributes_zero_witness :
  B64.is_finite (B64.mul (B64.mul (B64.of_int 2) B64.pi) Scenario.radius)
  = true /\
  initialised_ticks_left (Scenario.after []) = false /\
  wheel_distance_left (snd (Scenario.cb (Scenario.tick 7) "left"
                              (Scenario.after []))) = B64.zero.
Proof.
  assert (Hf : B64.is_finite
                 (B64.mul (B64.mul (B64.of_int 2) B64.pi) Scenario.radius)
               = true) by reflexivity.
  assert (Hi : initialised_ticks_left (Scenario.after []) = false)
    by reflexivity.
  exact (conj Hf (conj Hi
    (proj2 (proj2 (proj1 (proj1 first_tick_contributes_zero
                            Scenario.baseline Scenario.radius []
                            (Scenario.tick 7) Hf) Hi))))).
Defined.

(** The flag after the first tick of the left wheel. *)
Lemma encoder_received_latches_witness :
  fst (Scenario.cb (Scenario.tick 0) "left" init) = Return tt /\
  encoder_received (snd (Scenario.cb (Scenario.tick 0) "left" init)) = true.
Proof.
  assert (Hok : fst (Scenario.cb (Scenario.tick 0) "left" init) = Return tt)
    by reflexivity.
  exact (conj Hok
    (proj1 (proj2 (proj2 (encoder_received_latches
                            Scenario.baseline Scenario.radius)))
       (Scenario.tick 0) "left" init Hok)).
Defined.

(** Three loop iterations after one tick, and three before any. *)
Lemma run_emits_stored_transform_witness :
  encoder_received (Scenario.after [Scenario.left 0]) = true /\
  encoder_received (Scenario.after []) = false /\
  (exists m,
     transform_msg (Scenario.after [Scenario.left 0]) = Some m /\
     run_cycle (Scenario.after [Scenario.left 0]) =
     (Return [Publish m; SendTransform m], Scenario.after [Scenario.left 0]) /\
     run 3 (Scenario.after [Scenario.left 0]) =
     (Return (List.concat (repeat [Publish m; SendTransform m] 3)),
      Scenario.after [Scenario.left 0])) /\
  run 3 (Scenario.after []) = (Return [], Scenario.after []).
Proof.
  assert (Hup : encoder_received (Scenario.after [Scenario.left 0]) = true)
    by reflexivity.
  assert (Hdown : encoder_received (Scenario.after []) = false)
    by reflexivity.
  exact (conj Hup (conj Hdown (conj
    (proj2 (run_emits_stored_transform Scenario.baseline Scenario.radius
              [Scenario.left 0] 3) Hup)
    (proj1 (run_emits_stored_transform Scenario.baseline Scenario.radius
              [] 3) Hdown)))).
Defined.

(** The tag "middle". *)
Lemma unknown_wheel_raises_witness :
  "middle" <> "left" /\ "middle" <> "right" /\
  fst (Scenario.cb (Scenario.tick 3) "middle" init)
  = Raise (NameError "wheel name not found").
Proof.
  assert (Hl : "middle" <> "left") by discriminate.
  assert (Hr : "middle" <> "right") by discriminate.
  exact (conj Hl (conj Hr
    (proj1 (unknown_wheel_raises Scenario.baseline Scenario.radius
              (Scenario.tick 3) "middle" init Hl Hr)))).
Defined.

(** The tag "middle" on a node that has already processed ticks. *)
Lemma unknown_wheel_leaves_node_witness :
  "middle" <> "left" /\ "middle" <> "right" /\
  snd (Scenario.cb (Scenario.tick 3) "middle"
         (Scenario.after [Scenario.left 0; Scenario.right 4]))
  = Scenario.after [Scenario.left 0; Scenario.right 4].
Proof.
  assert (Hl : "middle" <> "left") by discriminate.
  assert (Hr : "middle" <> "right") by discriminate.
  exact (conj Hl (conj Hr
    (proj1 (unknown_wheel_leaves_node Scenario.baseline Scenario.radius
              (Scenario.tick 3) "middle"
              (Scenario.after [Scenario.left 0; Scenario.right 4]) Hl Hr)))).
Defined.

(** The stamp stored by the tick of the right wheel stamped at second 9. *)
Lemma transform_stamp_is_tick_stamp_witness :
  fst (Scenario.cb (Scenario.tick 9) "right" init) = Return tt /\
  exists m,
    transform_msg (snd (Scenario.cb (Scenario.tick 9) "right" init)) = Some m /\
    stamp (TransformStamped.header m) = {| secs := 9; nsecs := 0 |} /\
    run_cycle (snd (Scenario.cb (Scenario.tick 9) "right" init)) =
    (Return [Publish m; SendTransform m],
     snd (Scenario.cb (Scenario.tick 9) "right" init)).
Proof.
  assert (Hok : fst (Scenario.cb (Scenario.tick 9) "right" init) = Return tt)
    by reflexivity.
  exact (conj Hok
    (transform_stamp_is_tick_stamp Scenario.baseline Scenario.radius
       (Scenario.tick 9) "right" init Hok)).
Defined.

(** The heading after one revolution of the left wheel. *)
Lemma heading_is_derived_witness :
  encoder_received (Scenario.after [Scenario.left 0; Scenario.left 135])
  = true /\
  let s := Scenario.after [Scenario.left 0; Scenario.left 135] in
  theta s =
  np_mod (div (sub (wheel_distance_left s) (wheel_distance_right s))
              Scenario.baseline)
         (mul (of_int 2) np_pi).
Proof.
  assert (Hup : encoder_received
                  (Scenario.after [Scenario.left 0; Scenario.left 135]) = true)
    by reflexivity.
  exact (conj Hup
    (proj1 (proj1 (heading_is_derived binary64 Scenario.baseline
                     Scenario.radius)
              [Scenario.left 0; Scenario.left 135]) Hup)).
Defined.

(** * Further properties of the node *)

Section Emission.
Context {A : Arith}.
Variables (baseline radius : num).

#[local] Abbreviation cb := (cb_encoder_to_transform baseline radius).

(** With a zero baseline every tick with a known tag raises and the flag
    stays down. *)
Lemma zero_baseline_state (evs : list event) :
  eq_zero baseline = true ->
  encoder_received (after baseline radius evs) = false.
Proof.
  intros Hz. destruct (consistent_after baseline radius evs) as (Hup & _).
  destruct (encoder_received (after baseline radius evs)); [| reflexivity].
  destruct (Hup eq_refl) as (H & _). congruence.
Qed.

Lemma exec_silent (evs : list event) (s : Node) :
  eq_zero baseline = true ->
  consistent baseline s ->
  fst (exec baseline radius evs s) = Return [].
Proof.
  intros Hz. revert s. induction evs as [| [wheel msg |] evs IH]; intros s Hs.
  - reflexivity.
  - rewrite exec_tick. apply IH, consistent_cb, Hs.
  - simpl. unfold bind at 1. rewrite run_cycle_spec.
    assert (Hrec : encoder_received s = false).
    { destruct Hs as (Hup & _). destruct (encoder_received s); [| reflexivity].
      destruct (Hup eq_refl) as (H & _). congruence. }
    rewrite Hrec. unfold bind, ret. specialize (IH s Hs).
    destruct (exec baseline radius evs s) as [[r | e] s']; simpl in IH;
      [| discriminate].
    injection IH as ->. reflexivity.
Qed.

(** X2: with a baseline equal to zero, a tick tagged "left" or "right"
    raises [ZeroDivisionError], after the tracker of its wheel has been
    updated; whatever the trace, [encoder_received] stays false, [theta]
    stays the [0.0] of [__init__], no message is ever stored and the loop
    emits nothing. *)
Theorem zero_baseline_never_publishes :
  eq_zero baseline = true ->
  (forall msg s,
     cb msg "left" s = (Raise ZeroDivisionError, update_left radius msg s) /\
     cb msg "right" s = (Raise ZeroDivisionError, update_right radius msg s)) /\
  (forall evs,
     fst (exec baseline radius evs init) = Return [] /\
     encoder_received (after baseline radius evs) = false /\
     theta (after baseline radius evs) = of_int 0 /\
     transform_msg (after baseline radius evs) = None).
Proof.
  intros Hz. split.
  - intros msg s. rewrite cb_left, cb_right, Hz. split; reflexivity.
  - intros evs.
    split; [apply exec_silent; [exact Hz | apply consistent_init] |].
    pose proof (zero_baseline_state evs Hz) as Hrec.
    split; [exact Hrec |].
    destruct (consistent_after baseline radius evs) as (_ & Hdown & _).
    apply Hdown, Hrec.
Qed.

End Emission.

(** ** The stored message between two statements of a callback *)





Section Stage_properties.
Context {A : Arith}.
Variables (baseline radius : num).

#[local] Abbreviation cb := (cb_encoder_to_transform baseline radius).
#[local] Abbreviation stages := (cb_stages baseline radius).
#[local] Abbreviation view :=
  (fun s : Node => (encoder_received s, transform_msg s)).



(** The flag and the stored message along the stages of one call: as they
    were during the branch of the wheel and line 138, then lines 142 to 146
    with the flag as it was, then line 156. *)
Lemma cb_stages_view (msg : WheelEncoderStamped.t) (wheel : string)
    (s : Node) :
  exists k,
    map view (stages msg wheel s) =
    repeat (view s) k ++
    (if known wheel && negb (eq_zero baseline)
     then map (fun m => (encoder_received s, Some m)) (filling msg) ++
          [(true, Some (stamped msg))]
     else []).
Proof.
  destruct (wheel_cases wheel) as [-> | [-> | [Hl Hr]]].
  - unfold cb_stages, cb_statements, known.
    destruct s as [rec il tl jl dl ir tr jr dr th tm].
    destruct (eq_zero baseline), il;
      [exists 2%nat | exists 5%nat | exists 3%nat | exists 6%nat];
      reflexivity.
  - unfold cb_stages, cb_statements, known.
    destruct s as [rec il tl jl dl ir tr jr dr th tm].
    destruct (eq_zero baseline), ir;
      [exists 2%nat | exists 5%nat | exists 3%nat | exists 6%nat];
      reflexivity.
  - apply String.eqb_neq in Hl. apply String.eqb_neq in Hr.
    exists 0%nat. unfold cb_stages, cb_statements, known.
    rewrite Hl, Hr. reflexivity.
Qed.







(** X13: the loop can emit a blank message.  Once [encoder_received] is
    true, every further call of the callback with a known tag and a non-zero
    baseline passes, right after line 142, through a stage at which the
    stored message is a fresh [TransformStamped]; an iteration of the loop
    at that stage hands this blank message, with the default stamp and
    empty frame names, to the publisher and to the broadcaster. *)
Theorem blank_transform_between_statements
    (msg : WheelEncoderStamped.t) (wheel : string) (s : Node) :
  eq_zero baseline = false ->
  known wheel = true ->
  encoder_received s = true ->
  exists s',
    In s' (stages msg wheel s) /\
    run_cycle s' =
    (Return [Publish TransformStamped.new;
             SendTransform TransformStamped.new], s').
Proof.
  intros Hb Hk Hrec.
  destruct (cb_stages_view msg wheel s) as (k & Hview).
  rewrite Hk, Hb, Hrec in Hview. cbn [andb negb] in Hview.
  assert (Hin : In (true, Some TransformStamped.new)
                   (map view (stages msg wheel s))).
  { rewrite Hview. apply in_or_app. right. left. reflexivity. }
  apply in_map_iff in Hin. destruct Hin as (s' & Hs' & Hin).
  exists s'. split; [exact Hin |].
  injection Hs' as H1 H2. rewrite run_cycle_spec, H1, H2. reflexivity.
Qed.

End Stage_properties.

Section Bookkeeping.
Context {A : Arith}.
Variables (baseline radius : num).

#[local] Abbreviation cb := (cb_encoder_to_transform baseline radius).
#[local] Abbreviation data := WheelEncoderStamped.data.

Lemma readings_app (wheel : string) (evs1 evs2 : list event) :
  readings wheel (evs1 ++ evs2) = readings wheel evs1 ++ readings wheel evs2.
Proof.
  induction evs1 as [| [w msg |] evs1 IH]; simpl; [reflexivity | | exact IH].
  destruct (w =? wheel); simpl; rewrite IH; reflexivity.
Qed.

Lemma left_ticks_cb (msg : WheelEncoderStamped.t) (wheel : string) (s : Node) :
  (initialised_ticks_left (snd (cb msg wheel s)),
   initial_ticks_left (snd (cb msg wheel s)),
   total_ticks_left (snd (cb msg wheel s))) =
  if wheel =? "left" then
    (true, if initialised_ticks_left s then initial_ticks_left s else data msg,
     data msg)
  else (initialised_ticks_left s, initial_ticks_left s, total_ticks_left s).
Proof.
  destruct (wheel_cases wheel) as [-> | [-> | [Hl Hr]]].
  - rewrite cb_left. unfold estimate, update_left.
    destruct s as [rec il tl jl dl ir tr jr dr th tm]; simpl.
    destruct (eq_zero baseline), il; reflexivity.
  - rewrite cb_right. unfold estimate, update_right.
    destruct s as [rec il tl jl dl ir tr jr dr th tm]; simpl.
    destruct (eq_zero baseline), ir; reflexivity.
  - rewrite (cb_unknown baseline radius msg wheel s Hl Hr).
    apply String.eqb_neq in Hl. rewrite Hl. reflexivity.
Qed.

Lemma right_ticks_cb (msg : WheelEncoderStamped.t) (wheel : string) (s : Node) :
  (initialised_ticks_right (snd (cb msg wheel s)),
   initial_ticks_right (snd (cb msg wheel s)),
   total_ticks_right (snd (cb msg wheel s))) =
  if wheel =? "right" then
    (true,
     if initialised_ticks_right s then initial_ticks_right s else data msg,
     data msg)
  else (initialised_ticks_right s, initial_ticks_right s, total_ticks_right s).
Proof.
  destruct (wheel_cases wheel) as [-> | [-> | [Hl Hr]]].
  - rewrite cb_left. unfold estimate, update_left.
    destruct s as [rec il tl jl dl ir tr jr dr th tm]; simpl.
    destruct (eq_zero baseline), il; reflexivity.
  - rewrite cb_right. unfold estimate, update_right.
    destruct s as [rec il tl jl dl ir tr jr dr th tm]; simpl.
    destruct (eq_zero baseline), ir; reflexivity.
  - rewrite (cb_unknown baseline radius msg wheel s Hl Hr).
    apply String.eqb_neq in Hr. rewrite Hr. reflexivity.
Qed.

(** What the three tick attributes of a wheel hold after the readings
    [ts]. *)
Lemma ticks_after (view : Node -> bool * Z * Z) (wheel : string) :
  view init = (false, 0, 0) ->
  (forall msg w s,
     view (snd (cb msg w s)) =
     if w =? wheel then
       (true, (if fst (fst (view s)) then snd (fst (view s)) else data msg),
        data msg)
     else view s) ->
  forall evs,
    view (after baseline radius evs) =
    match readings wheel evs with
    | [] => (false, 0, 0)
    | t0 :: ts => (true, t0, last ts t0)
    end.
Proof.
  intros Hinit Hcb evs. induction evs as [| e evs IH] using rev_ind.
  - exact Hinit.
  - rewrite readings_app. destruct e as [w msg |].
    + rewrite after_tick, Hcb, IH. simpl readings.
      destruct (w =? wheel).
      * destruct (readings wheel evs) as [| t0 ts]; simpl; [reflexivity |].
        rewrite last_last. reflexivity.
      * rewrite app_nil_r. reflexivity.
    + rewrite after_cycle, IH. simpl. rewrite app_nil_r. reflexivity.
Qed.

(** X3: after any trace, a wheel that was delivered no reading still has
    [initialised_ticks] false and both tick attributes at 0; a wheel that
    was delivered the readings [t0, ..., tN] has [initialised_ticks] true,
    [initial_ticks] equal to the first reading [t0], which later readings
    never overwrite, and [total_ticks] equal to the last reading [tN].  A
    callback that raises [ZeroDivisionError] has done this bookkeeping
    all the same. *)
Theorem tick_bookkeeping (evs : list event) :
  (initialised_ticks_left (after baseline radius evs),
   initial_ticks_left (after baseline radius evs),
   total_ticks_left (after baseline radius evs)) =
  match readings "left" evs with
  | [] => (false, 0, 0)
  | t0 :: ts => (true, t0, last ts t0)
  end /\
  (initialised_ticks_right (after baseline radius evs),
   initial_ticks_right (after baseline radius evs),
   total_ticks_right (after baseline radius evs)) =
  match readings "right" evs with
  | [] => (false, 0, 0)
  | t0 :: ts => (true, t0, last ts t0)
  end.
Proof.
  split.
  - apply (ticks_after
             (fun s => (initialised_ticks_left s, initial_ticks_left s,
                        total_ticks_left s)) "left"); [reflexivity |].
    intros msg w s. apply left_ticks_cb.
  - apply (ticks_after
             (fun s => (initialised_ticks_right s, initial_ticks_right s,
                        total_ticks_right s)) "right"); [reflexivity |].
    intros msg w s. apply right_ticks_cb.
Qed.



End Bookkeeping.

Section Readiness.
Context {A : Arith}.
Variables (baseline radius : num).

#[local] Abbreviation cb := (cb_encoder_to_transform baseline radius).

(** With a non-zero baseline, a tick with a known tag raises the flag. *)
Lemma exec_ready (evs : list event) (s : Node) :
  eq_zero baseline = false ->
  consistent baseline s ->
  encoder_received s = true \/
  (exists wheel msg, In (Tick wheel msg) evs /\ known wheel = true) ->
  encoder_received (snd (exec baseline radius evs s)) = true.
Proof.
  intros Hb. revert s. induction evs as [| [wheel msg |] evs IH]; intros s Hs H.
  - destruct H as [H | (w & m & [] & _)]. exact H.
  - rewrite exec_tick. apply IH; [apply consistent_cb, Hs |].
    destruct H as [H | (w & m & [Heq | Hin] & Hk)].
    + left. apply cb_keeps_flag, H.
    + injection Heq as <- <-. left. apply cb_returns_flag, cb_succeeds;
        [| exact Hb].
      unfold known in Hk. apply orb_true_iff in Hk.
      destruct Hk as [Hk | Hk]; apply String.eqb_eq in Hk; auto.
    + right. exists w, m. split; assumption.
  - rewrite exec_cycle by exact Hs. apply IH; [exact Hs |].
    destruct H as [H | (w & m & [Heq | Hin] & Hk)];
      [left; exact H | discriminate | right; exists w, m; split; assumption].
Qed.

Lemma heading_after (evs : list event) :
  encoder_received (after baseline radius evs) = true ->
  theta (after baseline radius evs) =
  np_mod (div (sub (accumulated radius (readings "left" evs))
                   (accumulated radius (readings "right" evs))) baseline)
         (mul (of_int 2) np_pi).
Proof.
  intros Hrec.
  destruct (consistent_after baseline radius evs) as (Hup & _).
  destruct (Hup Hrec) as (_ & -> & _). unfold heading.
  rewrite wheel_distance_left_after, wheel_distance_right_after. reflexivity.
Qed.

Lemma theta_before (evs : list event) :
  encoder_received (after baseline radius evs) = false ->
  theta (after baseline radius evs) = of_int 0.
Proof.
  intros Hrec.
  destruct (consistent_after baseline radius evs) as (_ & Hdown & _).
  apply Hdown, Hrec.
Qed.

End Readiness.

Lemma exact_accumulated_net (radius : R) (ts : list Z) :
  accumulated (A := exact) radius ts =
  (2 * PI * radius / 135 * IZR (net_ticks ts))%R.
Proof.
  destruct ts as [| t0 ts].
  - simpl. lra.
  - rewrite exact_accumulated. reflexivity.
Qed.

(** X5: in exact arithmetic, with a non-zero baseline and at least one tick
    tagged "left" or "right" in the trace, the heading is the differential
    drive formula on the net counts of the two wheels:
    [mod ((c * net_left - c * net_right) / baseline, 2 * PI)] with
    [c = 2 * PI * radius / 135], whatever the order in which the ticks of the
    two wheels and the loop iterations were interleaved. *)
Theorem exact_heading_formula (baseline radius : @num exact)
    (evs : list event) :
  baseline <> 0%R ->
  (exists wheel msg, In (Tick wheel msg) evs /\ known wheel = true) ->
  theta (after baseline radius evs) =
  Exact.np_mod
    ((2 * PI * radius / 135 * IZR (net_ticks (readings "left" evs)) -
      2 * PI * radius / 135 * IZR (net_ticks (readings "right" evs)))
     / baseline)
    (2 * PI).
Proof.
  intros Hb Hin. apply exact_eq_zero in Hb.
  rewrite heading_after.
  - rewrite !exact_accumulated_net. reflexivity.
  - apply exec_ready; [exact Hb | apply consistent_init | right; exact Hin].
Qed.

Lemma exact_np_mod_zero (b : R) : Exact.np_mod 0 b = 0%R.
Proof.
  unfold Exact.np_mod.
  replace (0 / b)%R with (IZR 0) by (unfold Rdiv; simpl; ring).
  rewrite ZfloorZ. simpl. ring.
Qed.

Lemma b64_sub_diag (d : B64.t) :
  B64.is_finite d = true -> B64.sub d d = S754_zero false.
Proof.
  destruct d as [[|] | | | s m e]; try discriminate; intros _;
    try reflexivity.
  unfold B64.sub, SFsub. rewrite Z.sub_diag. reflexivity.
Qed.

Lemma b64_div_zero (b : B64.t) :
  B64.eqb b B64.zero = false -> b <> S754_nan ->
  exists sg, B64.div (S754_zero false) b = S754_zero sg.
Proof.
  destruct b as [sb | sb | | sb mb eb]; intros Hz Hn;
    try discriminate; try contradiction; eexists; reflexivity.
Qed.

Lemma b64_np_mod_zero (sg : bool) :
  B64.np_mod (S754_zero sg) B64.two_pi = B64.zero.
Proof. destruct sg; reflexivity. Qed.

(** X6: when the two wheels were delivered the same readings in the same
    order, their distances are equal, in any arithmetic; the heading is then
    [0] in exact arithmetic, and [0.0] in binary64 as long as the distance
    is finite and the baseline is neither zero nor NaN. *)
Theorem equal_readings_straight_line :
  (forall (A : Arith) (baseline radius : num) (evs : list event),
     readings "left" evs = readings "right" evs ->
     wheel_distance_left (after baseline radius evs) =
     wheel_distance_right (after baseline radius evs)) /\
  (forall (baseline radius : @num exact) (evs : list event),
     readings "left" evs = readings "right" evs ->
     theta (after baseline radius evs) = 0%R) /\
  (forall (baseline radius : @num binary64) (evs : list event),
     readings "left" evs = readings "right" evs ->
     eq_zero baseline = false ->
     baseline <> S754_nan ->
     B64.is_finite (wheel_distance_left (after baseline radius evs)) = true ->
     theta (after baseline radius evs) = B64.zero).
Proof.
  split; [| split].
  - intros A baseline radius evs H.
    rewrite wheel_distance_left_after, wheel_distance_right_after, H.
    reflexivity.
  - intros baseline radius evs H.
    destruct (encoder_received (after baseline radius evs)) eqn:Hrec.
    + rewrite (heading_after baseline radius evs Hrec), H.
      change (@np_mod exact) with Exact.np_mod.
      change (@div exact) with Rdiv. change (@sub exact) with Rminus.
      replace ((accumulated radius (readings "right" evs) -
                accumulated radius (readings "right" evs)) / baseline)%R
        with 0%R by (unfold Rdiv; ring).
      apply exact_np_mod_zero.
    + apply (theta_before baseline radius evs Hrec).
  - intros baseline radius evs H Hb Hn Hfin.
    destruct (encoder_received (after baseline radius evs)) eqn:Hrec.
    + rewrite wheel_distance_left_after in Hfin.
      rewrite (heading_after baseline radius evs Hrec), <- H.
      change (@sub binary64) with B64.sub. change (@div binary64) with B64.div.
      change (@np_mod binary64) with B64.np_mod.
      change (@mul binary64 (of_int 2) np_pi) with B64.two_pi.
      rewrite (b64_sub_diag _ Hfin).
      destruct (b64_div_zero baseline Hb Hn) as (sg & ->).
      apply b64_np_mod_zero.
    + apply (theta_before baseline radius evs Hrec).
Qed.

(** ** Calibration *)

Section Calibration_properties.
Context {A : Arith}.

Lemma isfile_some (fs : filesystem) (path : string) (c : content) :
  fs path = Some c -> isfile fs path = true.
Proof. unfold isfile. intros ->. reflexivity. Qed.

Lemma isfile_none (fs : filesystem) (path : string) :
  fs path = None -> isfile fs path = false.
Proof. unfold isfile. intros ->. reflexivity. Qed.

(** The outcome and the log of [get_calib_params], by the file it settles
    on. *)
Lemma get_calib_params_own (fs : filesystem) (veh_name : string)
    (c : content) :
  fs (vehicle_file veh_name) = Some c ->
  get_calib_params fs veh_name =
  let log :=
    [Log (String.append "Looking for calibration " (vehicle_file veh_name))] in
  match c with
  | Malformed => (inl YAMLError, log)
  | NotMapping => (inl TypeError, log)
  | Mapping d =>
      match d "baseline", d "radius" with
      | None, _ => (inl (KeyError "baseline"), log)
      | Some _, None => (inl (KeyError "radius"), log)
      | Some b, Some r =>
          (inr (b, r),
           log ++ [Log (String.append "Using calibration file: "
                          (vehicle_file veh_name))])
      end
  end.
Proof.
  intros H. unfold get_calib_params. fold (vehicle_file veh_name).
  rewrite (isfile_some _ _ _ H). cbn [negb]. rewrite (isfile_some _ _ _ H).
  cbn [negb]. rewrite H.
  destruct c as [| | d]; reflexivity.
Qed.

Lemma get_calib_params_default (fs : filesystem) (veh_name : string)
    (c : content) :
  fs (vehicle_file veh_name) = None ->
  fs default_file = Some c ->
  get_calib_params fs veh_name =
  let log :=
    [Log (String.append "Looking for calibration " (vehicle_file veh_name));
     LogWarn
       (String.append "Calibration not found: "
          (String.append (vehicle_file veh_name)
             (String.append newline " Using default instead.")))] in
  match c with
  | Malformed => (inl YAMLError, log)
  | NotMapping => (inl TypeError, log)
  | Mapping d =>
      match d "baseline", d "radius" with
      | None, _ => (inl (KeyError "baseline"), log)
      | Some _, None => (inl (KeyError "radius"), log)
      | Some b, Some r =>
          (inr (b, r),
           log ++ [Log (String.append "Using calibration file: "
                          default_file)])
      end
  end.
Proof.
  intros Hown H. unfold get_calib_params.
  fold (vehicle_file veh_name). fold default_file.
  rewrite (isfile_none _ _ Hown). cbn [negb].
  rewrite (isfile_some _ _ _ H). cbn [negb]. rewrite H.
  destruct c as [| | d]; reflexivity.
Qed.

Lemma get_calib_params_missing (fs : filesystem) (veh_name : string) :
  fs (vehicle_file veh_name) = None ->
  fs default_file = None ->
  get_calib_params fs veh_name =
  (inl (FileNotFoundError default_file),
   [Log (String.append "Looking for calibration " (vehicle_file veh_name));
    LogWarn
      (String.append "Calibration not found: "
         (String.append (vehicle_file veh_name)
            (String.append newline " Using default instead.")));
    SignalShutdown "Found no calibration file ... aborting"]).
Proof.
  intros Hown H. unfold get_calib_params.
  fold (vehicle_file veh_name). fold default_file.
  rewrite (isfile_none _ _ Hown). cbn [negb].
  rewrite (isfile_none _ _ H). cbn [negb]. rewrite H. reflexivity.
Qed.

(** X7: the vehicle's own calibration file takes precedence.  When it
    exists and holds a dictionary with both keys, its values are returned,
    whatever [default.yaml] holds, and nothing is warned about; when it does
    not exist and [default.yaml] holds a dictionary with both keys, the
    default values are returned after one warning.  In neither case is a
    shutdown requested. *)
Theorem calibration_precedence (fs : filesystem) (veh_name : string)
    (d : document) (b r : num) :
  d "baseline" = Some b ->
  d "radius" = Some r ->
  (fs (vehicle_file veh_name) = Some (Mapping d) ->
   get_calib_params fs veh_name =
   (inr (b, r),
    [Log (String.append "Looking for calibration " (vehicle_file veh_name));
     Log (String.append "Using calibration file: "
            (vehicle_file veh_name))])) /\
  (fs (vehicle_file veh_name) = None ->
   fs default_file = Some (Mapping d) ->
   fst (get_calib_params fs veh_name) = inr (b, r) /\
   (exists text,
      snd (get_calib_params fs veh_name) =
      [Log (String.append "Looking for calibration " (vehicle_file veh_name));
       LogWarn text;
       Log (String.append "Using calibration file: " default_file)])).
Proof.
  intros Hb Hr. split.
  - intros H. rewrite (get_calib_params_own _ _ _ H). cbv zeta.
    rewrite Hb, Hr. reflexivity.
  - intros Hown H. rewrite (get_calib_params_default _ _ _ Hown H). cbv zeta.
    rewrite Hb, Hr. split; [reflexivity | eexists; reflexivity].
Qed.

(** X8: a shutdown is requested exactly when neither the vehicle's file nor
    [default.yaml] exists, and the function does not stop there: it goes on
    to open [default.yaml] and raises [FileNotFoundError] for that path.
    It raises [FileNotFoundError] in no other case, and never for the
    vehicle's own path unless that is the default path. *)
Theorem missing_calibration_shutdown (fs : filesystem) (veh_name : string) :
  ((exists reason,
      In (SignalShutdown reason) (snd (get_calib_params fs veh_name))) <->
   fs (vehicle_file veh_name) = None /\ fs default_file = None) /\
  (forall path,
     fst (get_calib_params fs veh_name) = inl (FileNotFoundError path) <->
     path = default_file /\
     fs (vehicle_file veh_name) = None /\ fs default_file = None).
Proof.
  destruct (fs (vehicle_file veh_name)) as [c |] eqn:Hown.
  - rewrite (get_calib_params_own _ _ _ Hown).
    split; [| intros path]; split.
    + intros (reason & Hin).
      destruct c as [| | d];
        [| | destruct (d "baseline"); [destruct (d "radius") |]];
        simpl in Hin; repeat destruct Hin as [Hin | Hin];
        try discriminate; contradiction.
    + intros (H & _). discriminate.
    + destruct c as [| | d];
        [| | destruct (d "baseline"); [destruct (d "radius") |]];
        discriminate.
    + intros (_ & H & _). discriminate.
  - destruct (fs default_file) as [c |] eqn:Hdef.
    + rewrite (get_calib_params_default _ _ _ Hown Hdef).
      split; [| intros path]; split.
      * intros (reason & Hin).
        destruct c as [| | d];
          [| | destruct (d "baseline"); [destruct (d "radius") |]];
          simpl in Hin; repeat destruct Hin as [Hin | Hin];
          try discriminate; contradiction.
      * intros (_ & H). discriminate.
      * destruct c as [| | d];
          [| | destruct (d "baseline"); [destruct (d "radius") |]];
          discriminate.
      * intros (_ & _ & H). discriminate.
    + rewrite (get_calib_params_missing _ _ Hown Hdef).
      split; [| intros path]; split.
      * intros _. split; reflexivity.
      * intros _. eexists. simpl. right. right. left. reflexivity.
      * simpl. intros H. injection H as <-. repeat split.
      * intros (-> & _). reflexivity.
Qed.

(** X9: the two parameters always come from one and the same file, a file
    that holds a dictionary and that the final log line names: the vehicle's
    file, or [default.yaml] only when the vehicle's file does not exist.
    There is no fallback once the vehicle's file exists, even beside a
    complete [default.yaml]: a text that [yaml.load] rejects raises its
    [YAMLError]; a file that loads to something else than a dictionary
    ([None] for an empty file, a list, a scalar) raises [TypeError] at the
    first subscript; a dictionary without ["baseline"] raises [KeyError] for
    it, and one that holds it but lacks ["radius"] raises [KeyError] for
    ["radius"]. *)
Theorem calibration_from_one_file (fs : filesystem) (veh_name : string) :
  (forall b r,
     fst (get_calib_params fs veh_name) = inr (b, r) ->
     exists path d,
       (path = vehicle_file veh_name \/
        path = default_file /\ fs (vehicle_file veh_name) = None) /\
       fs path = Some (Mapping d) /\
       d "baseline" = Some b /\ d "radius" = Some r /\
       last (snd (get_calib_params fs veh_name)) (Log "") =
       Log (String.append "Using calibration file: " path)) /\
  (fs (vehicle_file veh_name) = Some Malformed ->
   fst (get_calib_params fs veh_name) = inl YAMLError) /\
  (fs (vehicle_file veh_name) = Some NotMapping ->
   fst (get_calib_params fs veh_name) = inl TypeError) /\
  (forall d,
     fs (vehicle_file veh_name) = Some (Mapping d) ->
     (d "baseline" = None ->
      fst (get_calib_params fs veh_name) = inl (KeyError "baseline")) /\
     (d "baseline" <> None -> d "radius" = None ->
      fst (get_calib_params fs veh_name) = inl (KeyError "radius"))).
Proof.
  split; [| split; [| split]].
  - intros b r.
    destruct (fs (vehicle_file veh_name)) as [c |] eqn:Hown.
    + rewrite (get_calib_params_own _ _ _ Hown).
      destruct c as [| | d]; try discriminate.
      destruct (d "baseline") as [b' |] eqn:Hb;
        [destruct (d "radius") as [r' |] eqn:Hr |]; try discriminate.
      simpl. intros H. injection H as <- <-.
      exists (vehicle_file veh_name), d. repeat split; auto.
    + destruct (fs default_file) as [c |] eqn:Hdef.
      * rewrite (get_calib_params_default _ _ _ Hown Hdef).
        destruct c as [| | d]; try discriminate.
        destruct (d "baseline") as [b' |] eqn:Hb;
          [destruct (d "radius") as [r' |] eqn:Hr |]; try discriminate.
        simpl. intros H. injection H as <- <-.
        exists default_file, d. repeat split; auto.
      * rewrite (get_calib_params_missing _ _ Hown Hdef). discriminate.
  - intros Hown. rewrite (get_calib_params_own _ _ _ Hown). reflexivity.
  - intros Hown. rewrite (get_calib_params_own _ _ _ Hown). reflexivity.
  - intros d Hown. rewrite (get_calib_params_own _ _ _ Hown). cbv zeta. split.
    + intros ->. reflexivity.
    + intros Hb Hr. destruct (d "baseline"); [| contradiction].
      rewrite Hr. reflexivity.
Qed.

End Calibration_properties.

(** ** Subscriptions *)

Lemma append_eqb (p a b : string) :
  (String.append p a =? String.append p b) = (a =? b).
Proof.
  induction p as [| c p IH]; [reflexivity |].
  simpl. rewrite Ascii.eqb_refl. exact IH.
Qed.

Lemma encoder_topics_differ (veh_name : string) :
  (left_encoder_topic veh_name =? right_encoder_topic veh_name) = false /\
  (right_encoder_topic veh_name =? left_encoder_topic veh_name) = false.
Proof.
  unfold left_encoder_topic, right_encoder_topic.
  rewrite !append_eqb. split; reflexivity.
Qed.

Section Wiring.
Context {A : Arith}.
Variables (baseline radius : num).

#[local] Abbreviation cb := (cb_encoder_to_transform baseline radius).

(** X10: the wiring of [__init__].  For every vehicle name the two encoder
    topics differ, so a message on the left topic runs the callback exactly
    once, with the tag "left", a message on the right topic exactly once
    with "right", and a message on any other topic runs nothing and leaves
    the node as it was.  Through its own subscriptions the callback is
    therefore never handed an unknown tag: no delivery ends in the
    [NameError] of the final branch. *)
Theorem subscribers_dispatch (veh_name : string)
    (msg : WheelEncoderStamped.t) (s : Node) :
  deliver baseline radius (subscribers veh_name)
    (left_encoder_topic veh_name) msg s =
  ([fst (cb msg "left" s)], snd (cb msg "left" s)) /\
  deliver baseline radius (subscribers veh_name)
    (right_encoder_topic veh_name) msg s =
  ([fst (cb msg "right" s)], snd (cb msg "right" s)) /\
  (forall topic,
     topic <> left_encoder_topic veh_name ->
     topic <> right_encoder_topic veh_name ->
     deliver baseline radius (subscribers veh_name) topic msg s = ([], s)) /\
  (forall topic,
     Forall (fun o => forall text, o <> Raise (NameError text))
       (fst (deliver baseline radius (subscribers veh_name) topic msg s))).
Proof.
  destruct (encoder_topics_differ veh_name) as [Hlr Hrl].
  assert (Hl : deliver baseline radius (subscribers veh_name)
                 (left_encoder_topic veh_name) msg s =
               ([fst (cb msg "left" s)], snd (cb msg "left" s))).
  { unfold subscribers. cbn [deliver sub_topic callback_args].
    rewrite String.eqb_refl, Hrl. reflexivity. }
  assert (Hr : deliver baseline radius (subscribers veh_name)
                 (right_encoder_topic veh_name) msg s =
               ([fst (cb msg "right" s)], snd (cb msg "right" s))).
  { unfold subscribers. cbn [deliver sub_topic callback_args].
    rewrite Hlr, String.eqb_refl. reflexivity. }
  assert (Ho : forall topic,
             topic <> left_encoder_topic veh_name ->
             topic <> right_encoder_topic veh_name ->
             deliver baseline radius (subscribers veh_name) topic msg s =
             ([], s)).
  { intros topic Hnl Hnr.
    unfold subscribers. cbn [deliver sub_topic callback_args].
    destruct (String.eqb_spec (left_encoder_topic veh_name) topic) as [E |];
      [symmetry in E; contradiction |].
    destruct (String.eqb_spec (right_encoder_topic veh_name) topic) as [E |];
      [symmetry in E; contradiction |].
    reflexivity. }
  repeat split; try assumption.
  intros topic.
  destruct (String.eqb_spec topic (left_encoder_topic veh_name)) as [-> | Hnl].
  - rewrite Hl. constructor; [| constructor]. intros text.
    rewrite cb_left. destruct (eq_zero baseline); discriminate.
  - destruct (String.eqb_spec topic (right_encoder_topic veh_name))
      as [-> | Hnr].
    + rewrite Hr. constructor; [| constructor]. intros text.
      rewrite cb_right. destruct (eq_zero baseline); discriminate.
    + rewrite (Ho topic Hnl Hnr). constructor.
Qed.

End Wiring.

(** ** The estimate as a function of the readings *)

Section Interleaving.
Context {A : Arith}.
Variables (baseline radius : num).

(** With a non-zero baseline the flag is up exactly when one of the two
    wheels has been delivered a reading. *)
Lemma exec_flag (evs : list event) (s : Node) :
  eq_zero baseline = false ->
  consistent baseline s ->
  encoder_received (snd (exec baseline radius evs s)) =
  encoder_received s
  || match readings "left" evs with [] => false | _ :: _ => true end
  || match readings "right" evs with [] => false | _ :: _ => true end.
Proof.
  intros Hb. revert s. induction evs as [| [wheel msg |] evs IH]; intros s Hs.
  - simpl. rewrite !orb_false_r. reflexivity.
  - rewrite exec_tick.
    rewrite IH by (apply consistent_cb, Hs).
    destruct (wheel_cases wheel) as [-> | [-> | [Hl Hr]]].
    + rewrite (cb_returns_flag baseline radius)
        by (apply cb_succeeds; [left; reflexivity | exact Hb]).
      cbn [readings String.eqb Ascii.eqb Bool.eqb]. cbn [orb].
      rewrite orb_true_r. reflexivity.
    + rewrite (cb_returns_flag baseline radius)
        by (apply cb_succeeds; [right; reflexivity | exact Hb]).
      cbn [readings String.eqb Ascii.eqb Bool.eqb]. cbn [orb].
      rewrite orb_true_r. reflexivity.
    + rewrite cb_unknown by assumption.
      apply String.eqb_neq in Hl. apply String.eqb_neq in Hr.
      cbn [readings snd]. rewrite Hl, Hr. reflexivity.
  - rewrite exec_cycle by exact Hs. apply IH, Hs.
Qed.

Lemma flag_after (evs : list event) :
  encoder_received (after baseline radius evs) =
  negb (eq_zero baseline)
  && (match readings "left" evs with [] => false | _ :: _ => true end
      || match readings "right" evs with [] => false | _ :: _ => true end).
Proof.
  destruct (eq_zero baseline) eqn:Hb.
  - apply zero_baseline_state, Hb.
  - unfold after. rewrite (exec_flag evs init Hb (consistent_init baseline)).
    reflexivity.
Qed.

Lemma theta_after (evs : list event) :
  theta (after baseline radius evs) =
  if encoder_received (after baseline radius evs)
  then np_mod (div (sub (accumulated radius (readings "left" evs))
                        (accumulated radius (readings "right" evs)))
                   baseline)
              (mul (of_int 2) np_pi)
  else of_int 0.
Proof.
  destruct (encoder_received (after baseline radius evs)) eqn:H.
  - apply heading_after, H.
  - apply theta_before, H.
Qed.

(** X11: the estimate depends on the trace only through the sequence of
    readings of each wheel.  Two traces that deliver the same readings to
    the left wheel and the same readings to the right wheel end with the same
    two distances, the same heading and the same [encoder_received], in any
    arithmetic: how the messages of the two wheels were interleaved, their
    stamps, ticks with unknown tags and the loop iterations play no part. *)
Theorem estimate_ignores_interleaving (evs1 evs2 : list event) :
  readings "left" evs1 = readings "left" evs2 ->
  readings "right" evs1 = readings "right" evs2 ->
  wheel_distance_left (after baseline radius evs1) =
  wheel_distance_left (after baseline radius evs2) /\
  wheel_distance_right (after baseline radius evs1) =
  wheel_distance_right (after baseline radius evs2) /\
  encoder_received (after baseline radius evs1) =
  encoder_received (after baseline radius evs2) /\
  theta (after baseline radius evs1) = theta (after baseline radius evs2).
Proof.
  intros Hl Hr.
  assert (Hf : encoder_received (after baseline radius evs1) =
               encoder_received (after baseline radius evs2))
    by (rewrite !flag_after, Hl, Hr; reflexivity).
  repeat split.
  - rewrite !wheel_distance_left_after, Hl. reflexivity.
  - rewrite !wheel_distance_right_after, Hr. reflexivity.
  - exact Hf.
  - rewrite !theta_after, Hf, Hl, Hr. reflexivity.
Qed.

End Interleaving.

(** X12: the heading stays in range along every trace.  In exact arithmetic
    [theta] lies in [[0, 2 * PI)] after any trace, a zero baseline and
    unknown tags included; in binary64 it lies between [0.0] and
    [2.0 * np.pi], both included, after any trace that leaves a finite
    ratio of the distance difference to the baseline. *)
Theorem heading_stays_in_range :
  (forall (baseline radius : @num exact) (evs : list event),
     (0 <= theta (after baseline radius evs) < 2 * PI)%R) /\
  (forall (baseline radius : @num binary64) (evs : list event),
     B64.is_finite
       (div (sub (wheel_distance_left (after baseline radius evs))
                 (wheel_distance_right (after baseline radius evs)))
            baseline) = true ->
     B64.leb B64.zero (theta (after baseline radius evs)) = true /\
     B64.leb (theta (after baseline radius evs))
             (@mul binary64 (of_int 2) np_pi) = true).
Proof.
  split.
  - intros baseline radius evs. rewrite theta_after.
    destruct (encoder_received (after baseline radius evs)).
    + change (@np_mod exact) with Exact.np_mod.
      apply exact_np_mod_range. simpl. assert (HPI := PI_RGT_0). lra.
    + simpl. assert (HPI := PI_RGT_0). lra.
  - intros baseline radius evs Hfin. rewrite theta_after.
    rewrite wheel_distance_left_after, wheel_distance_right_after in Hfin.
    destruct (encoder_received (after baseline radius evs)).
    + change (@mul binary64 (of_int 2) np_pi) with B64.two_pi.
      apply np_mod_two_pi_range, div_in_range, Hfin.
    + split; reflexivity.
Qed.

(** ** The further properties at the concrete vehicle *)

(** A zero baseline with the radius of the scenario: two ticks and two loop
    iterations. *)
Lemma zero_baseline_never_publishes_witness :
  @eq_zero binary64 B64.zero = true /\
  fst (exec (A := binary64) B64.zero Scenario.radius
         [Scenario.left 0; Cycle; Scenario.right 5; Cycle] init) = Return [] /\
  encoder_received
    (after (A := binary64) B64.zero Scenario.radius
       [Scenario.left 0; Cycle; Scenario.right 5; Cycle]) = false /\
  theta
    (after (A := binary64) B64.zero Scenario.radius
       [Scenario.left 0; Cycle; Scenario.right 5; Cycle]) = of_int 0 /\
  transform_msg
    (after (A := binary64) B64.zero Scenario.radius
       [Scenario.left 0; Cycle; Scenario.right 5; Cycle]) = None.
Proof.
  assert (Hz : @eq_zero binary64 B64.zero = true) by reflexivity.
  exact (conj Hz
    (proj2 (zero_baseline_never_publishes (A := binary64) B64.zero
              Scenario.radius Hz)
       [Scenario.left 0; Cycle; Scenario.right 5; Cycle])).
Defined.


(** Exact arithmetic with a unit baseline and radius: the left wheel makes
    one turn while the right wheel stands still. *)
Lemma exact_heading_formula_witness :
  (1 <> 0)%R /\
  (exists wheel msg,
     In (Tick wheel msg)
        [Scenario.left 0; Scenario.right 0; Scenario.left 135] /\
     known wheel = true) /\
  theta (after (A := exact) 1%R 1%R
           [Scenario.left 0; Scenario.right 0; Scenario.left 135]) =
  Exact.np_mod
    ((2 * PI * 1 / 135 *
      IZR (net_ticks
             (readings "left"
                [Scenario.left 0; Scenario.right 0; Scenario.left 135])) -
      2 * PI * 1 / 135 *
      IZR (net_ticks
             (readings "right"
                [Scenario.left 0; Scenario.right 0; Scenario.left 135])))
     / 1)
    (2 * PI).
Proof.
  assert (Hb : (1 <> 0)%R) by exact R1_neq_R0.
  assert (Hin : exists wheel msg,
             In (Tick wheel msg)
                [Scenario.left 0; Scenario.right 0; Scenario.left 135] /\
             known wheel = true).
  { exists "left", (Scenario.tick 0).
    split; [left; reflexivity | reflexivity]. }
  exact (conj Hb (conj Hin
    (exact_heading_formula 1%R 1%R
       [Scenario.left 0; Scenario.right 0; Scenario.left 135] Hb Hin))).
Defined.

(** Both wheels read 0 and then 5, in binary64. *)
Lemma equal_readings_straight_line_witness :
  readings "left"
    [Scenario.left 0; Scenario.right 0; Scenario.left 5; Scenario.right 5] =
  readings "right"
    [Scenario.left 0; Scenario.right 0; Scenario.left 5; Scenario.right 5] /\
  eq_zero Scenario.baseline = false /\
  Scenario.baseline <> S754_nan /\
  B64.is_finite
    (wheel_distance_left
       (Scenario.after
          [Scenario.left 0; Scenario.right 0; Scenario.left 5;
           Scenario.right 5])) = true /\
  theta
    (Scenario.after
       [Scenario.left 0; Scenario.right 0; Scenario.left 5;
        Scenario.right 5]) = B64.zero.
Proof.
  assert (Hr : readings "left"
                 [Scenario.left 0; Scenario.right 0; Scenario.left 5;
                  Scenario.right 5] =
               readings "right"
                 [Scenario.left 0; Scenario.right 0; Scenario.left 5;
                  Scenario.right 5]) by reflexivity.
  assert (Hb : eq_zero Scenario.baseline = false) by reflexivity.
  assert (Hn : Scenario.baseline <> S754_nan) by discriminate.
  assert (Hf : B64.is_finite
                 (wheel_distance_left
                    (Scenario.after
                       [Scenario.left 0; Scenario.right 0; Scenario.left 5;
                        Scenario.right 5])) = true)
    by (vm_compute; reflexivity).
  exact (conj Hr (conj Hb (conj Hn (conj Hf
    (proj2 (proj2 equal_readings_straight_line)
       Scenario.baseline Scenario.radius
       [Scenario.left 0; Scenario.right 0; Scenario.left 5; Scenario.right 5]
       Hr Hb Hn Hf))))).
Defined.

(** The robot with only its own file, and the robot with only the default
    file. *)
Lemma calibration_precedence_witness :
  Robot.complete "baseline" = Some Scenario.baseline /\
  Robot.complete "radius" = Some Scenario.radius /\
  Robot.own_only (vehicle_file Robot.veh_name) =
  Some (Mapping Robot.complete) /\
  Robot.default_only (vehicle_file Robot.veh_name) = None /\
  Robot.default_only default_file = Some (Mapping Robot.complete) /\
  get_calib_params Robot.own_only Robot.veh_name =
  (inr (Scenario.baseline, Scenario.radius),
   [Log (String.append "Looking for calibration "
           (vehicle_file Robot.veh_name));
    Log (String.append "Using calibration file: "
           (vehicle_file Robot.veh_name))]) /\
  fst (get_calib_params Robot.default_only Robot.veh_name) =
  inr (Scenario.baseline, Scenario.radius).
Proof.
  assert (Hb : Robot.complete "baseline" = Some Scenario.baseline)
    by reflexivity.
  assert (Hr : Robot.complete "radius" = Some Scenario.radius) by reflexivity.
  assert (Ho : Robot.own_only (vehicle_file Robot.veh_name) =
               Some (Mapping Robot.complete)) by reflexivity.
  assert (Hn : Robot.default_only (vehicle_file Robot.veh_name) = None)
    by reflexivity.
  assert (Hd : Robot.default_only default_file =
               Some (Mapping Robot.complete)) by reflexivity.
  exact (conj Hb (conj Hr (conj Ho (conj Hn (conj Hd (conj
    (proj1 (calibration_precedence Robot.own_only Robot.veh_name
              Robot.complete Scenario.baseline Scenario.radius Hb Hr) Ho)
    (proj1 (proj2 (calibration_precedence Robot.default_only Robot.veh_name
                     Robot.complete Scenario.baseline Scenario.radius Hb Hr)
              Hn Hd)))))))).
Defined.

(** Beside a complete default file: the robot whose own file lacks the
    radius, and the robot whose own file is empty. *)
Lemma calibration_from_one_file_witness :
  Robot.own_incomplete (vehicle_file Robot.veh_name) =
  Some (Mapping Robot.no_radius) /\
  Robot.no_radius "baseline" <> None /\
  Robot.no_radius "radius" = None /\
  Robot.own_incomplete default_file = Some (Mapping Robot.complete) /\
  fst (get_calib_params Robot.own_incomplete Robot.veh_name) =
  inl (KeyError "radius") /\
  Robot.own_empty (vehicle_file Robot.veh_name) = Some NotMapping /\
  Robot.own_empty default_file = Some (Mapping Robot.complete) /\
  fst (get_calib_params Robot.own_empty Robot.veh_name) = inl TypeError.
Proof.
  assert (Ho : Robot.own_incomplete (vehicle_file Robot.veh_name) =
               Some (Mapping Robot.no_radius)) by reflexivity.
  assert (Hb : Robot.no_radius "baseline" <> None) by discriminate.
  assert (Hr : Robot.no_radius "radius" = None) by reflexivity.
  assert (Hd : Robot.own_incomplete default_file =
               Some (Mapping Robot.complete)) by reflexivity.
  assert (He : Robot.own_empty (vehicle_file Robot.veh_name) =
               Some NotMapping) by reflexivity.
  assert (Hd' : Robot.own_empty default_file =
                Some (Mapping Robot.complete)) by reflexivity.
  exact (conj Ho (conj Hb (conj Hr (conj Hd (conj
    (proj2 (proj2 (proj2 (proj2 (calibration_from_one_file
                                   Robot.own_incomplete Robot.veh_name)))
              Robot.no_radius Ho) Hb Hr)
    (conj He (conj Hd'
       (proj1 (proj2 (proj2 (calibration_from_one_file Robot.own_empty
                               Robot.veh_name))) He)))))))).
Defined.

(** A message on the node's own output topic reaches no callback. *)
Lemma subscribers_dispatch_witness :
  pub_topic Robot.veh_name <> left_encoder_topic Robot.veh_name /\
  pub_topic Robot.veh_name <> right_encoder_topic Robot.veh_name /\
  deliver Scenario.baseline Scenario.radius (subscribers Robot.veh_name)
    (pub_topic Robot.veh_name) (Scenario.tick 7) init = ([], init).
Proof.
  assert (Hl : pub_topic Robot.veh_name <> left_encoder_topic Robot.veh_name)
    by discriminate.
  assert (Hr : pub_topic Robot.veh_name <> right_encoder_topic Robot.veh_name)
    by discriminate.
  exact (conj Hl (conj Hr
    (proj1 (proj2 (proj2 (subscribers_dispatch Scenario.baseline
                            Scenario.radius Robot.veh_name (Scenario.tick 7)
                            init)))
       (pub_topic Robot.veh_name) Hl Hr))).
Defined.

(** The same readings, wheel by wheel, delivered in two different orders. *)
Lemma estimate_ignores_interleaving_witness :
  readings "left"
    [Scenario.left 0; Scenario.right 0; Scenario.left 5; Scenario.right 3] =
  readings "left"
    [Scenario.right 0; Scenario.right 3; Cycle; Scenario.left 0;
     Scenario.left 5] /\
  readings "right"
    [Scenario.left 0; Scenario.right 0; Scenario.left 5; Scenario.right 3] =
  readings "right"
    [Scenario.right 0; Scenario.right 3; Cycle; Scenario.left 0;
     Scenario.left 5] /\
  theta
    (Scenario.after
       [Scenario.left 0; Scenario.right 0; Scenario.left 5;
        Scenario.right 3]) =
  theta
    (Scenario.after
       [Scenario.right 0; Scenario.right 3; Cycle; Scenario.left 0;
        Scenario.left 5]).
Proof.
  assert (Hl : readings "left"
                 [Scenario.left 0; Scenario.right 0; Scenario.left 5;
                  Scenario.right 3] =
               readings "left"
                 [Scenario.right 0; Scenario.right 3; Cycle; Scenario.left 0;
                  Scenario.left 5]) by reflexivity.
  assert (Hr : readings "right"
                 [Scenario.left 0; Scenario.right 0; Scenario.left 5;
                  Scenario.right 3] =
               readings "right"
                 [Scenario.right 0; Scenario.right 3; Cycle; Scenario.left 0;
                  Scenario.left 5]) by reflexivity.
  exact (conj Hl (conj Hr
    (proj2 (proj2 (proj2
       (estimate_ignores_interleaving Scenario.baseline Scenario.radius
          [Scenario.left 0; Scenario.right 0; Scenario.left 5;
           Scenario.right 3]
          [Scenario.right 0; Scenario.right 3; Cycle; Scenario.left 0;
           Scenario.left 5] Hl Hr)))))).
Defined.

(** The left wheel one turn ahead of the right one, in binary64. *)
Lemma heading_stays_in_range_witness :
  B64.is_finite
    (div (sub (wheel_distance_left
                 (Scenario.after
                    [Scenario.left 0; Scenario.right 0; Scenario.left 135]))
              (wheel_distance_right
                 (Scenario.after
                    [Scenario.left 0; Scenario.right 0; Scenario.left 135])))
         Scenario.baseline) = true /\
  B64.leb B64.zero
    (theta (Scenario.after
              [Scenario.left 0; Scenario.right 0; Scenario.left 135])) = true /\
  B64.leb
    (theta (Scenario.after
              [Scenario.left 0; Scenario.right 0; Scenario.left 135]))
    (@mul binary64 (of_int 2) np_pi) = true.
Proof.
  assert (Hf : B64.is_finite
                 (div (sub (wheel_distance_left
                              (Scenario.after
                                 [Scenario.left 0; Scenario.right 0;
                                  Scenario.left 135]))
                           (wheel_distance_right
                              (Scenario.after
                                 [Scenario.left 0; Scenario.right 0;
                                  Scenario.left 135])))
                      Scenario.baseline) = true)
    by (vm_compute; reflexivity).
  exact (conj Hf
    (proj2 heading_stays_in_range Scenario.baseline Scenario.radius
       [Scenario.left 0; Scenario.right 0; Scenario.left 135] Hf)).
Defined.

(** The right wheel's first tick after the left wheel's first tick has
    raised the flag. *)
Lemma blank_transform_between_statements_witness :
  eq_zero Scenario.baseline = false /\
  known "right" = true /\
  encoder_received (Scenario.after [Scenario.left 0]) = true /\
  exists s',
    In s' (cb_stages Scenario.baseline Scenario.radius (Scenario.tick 5)
             "right" (Scenario.after [Scenario.left 0])) /\
    run_cycle s' =
    (Return [Publish TransformStamped.new;
             SendTransform TransformStamped.new], s').
Proof.
  assert (Hb : eq_zero Scenario.baseline = false) by reflexivity.
  assert (Hk : known "right" = true) by reflexivity.
  assert (Hr : encoder_received (Scenario.after [Scenario.left 0]) = true)
    by (vm_compute; reflexivity).
  exact (conj Hb (conj Hk (conj Hr
    (blank_transform_between_statements Scenario.baseline Scenario.radius
       (Scenario.tick 5) "right" (Scenario.after [Scenario.left 0])
       Hb Hk Hr)))).
Defined.
